(** * CEP 3D string-network simulation: a shallow embedding of
      [cep_simulation.py] and the properties of its pipeline.

    Numbers.  The program computes with float64 values.  The main embedding
    writes every float64 operation as the operation of the same name on the
    real numbers of the Standard Library: its statements say which
    operations the program performs, in which order and on which values,
    and are to be read with the float64 operations in place of the real
    ones.  The one place where the program leaves the finite numbers with
    ordinary inputs, the division of [point_to_line_dist], has an explicit
    extended value ([xfloat]) so that 0/0 is a NaN and not a real.  What
    depends on rounding, overflow or underflow is settled on a second
    embedding of the arithmetic, [Binary64], over the kernel's IEEE 754
    binary64 numbers.  Python integers are [Z] or, for sizes, counts and
    indices, [nat].

    Arrays.  A three-dimensional [ndarray] is a nested list of rows; indexing
    is stdpp's list lookup and an in-place item update is stdpp's [alter].

    Effects.  The program reads the process-wide random source and mutates
    array objects.  Both are explicit here: a [state] holds the store of
    array objects (indexed by reference) and the position in the sequence of
    random draws; every stateful function is a computation in the monad [M]. *)

From Stdlib Require Import Floats.
From Stdlib Require Import Reals Lra Lia ZArith String.
From stdpp Require Import base option list.

Local Open Scope R_scope.

(** ** NumPy scalars and small vectors *)

(** The result of an IEEE division: a finite number, an infinity or a NaN. *)
Inductive xfloat : Type :=
  | Fin (r : R)
  | Inf (positive : bool)
  | NaN.

(** [x / y] on float64 scalars, as NumPy evaluates it: a zero divisor gives a
    NaN for 0/0 and a signed infinity otherwise (with a warning, no exception). *)
Definition np_divide (x y : R) : xfloat :=
  if Req_dec_T y 0 then
    if Req_dec_T x 0 then NaN else Inf (if Rlt_dec 0 x then true else false)
  else Fin (x / y).

(** [np.clip(x, lo, hi)] = [minimum(maximum(x, lo), hi)]: a NaN stays a NaN
    ([None]), an infinity is clipped to the bound on its side. *)
Definition np_clip (x : xfloat) (lo hi : R) : option R :=
  match x with
  | Fin r => Some (Rmin (Rmax r lo) hi)
  | Inf true => Some hi
  | Inf false => Some (Rmin lo hi)
  | NaN => None
  end.

(** [int(x)] on a float: truncation towards zero. *)
Definition py_int (x : R) : Z :=
  if Rle_dec 0 x then Zfloor x else Zceil x.

(** A one-dimensional array of three floats. *)
Record vec3 : Type := Vec3 { vx : R; vy : R; vz : R }.

Definition vadd (u v : vec3) : vec3 := Vec3 (vx u + vx v) (vy u + vy v) (vz u + vz v).
Definition vsub (u v : vec3) : vec3 := Vec3 (vx u - vx v) (vy u - vy v) (vz u - vz v).
Definition vscale (c : R) (v : vec3) : vec3 := Vec3 (c * vx v) (c * vy v) (c * vz v).
(** [np.dot] and [np.linalg.norm] *)
Definition dot (u v : vec3) : R := vx u * vx v + vy u * vy v + vz u * vz v.
Definition norm (v : vec3) : R := sqrt (dot v v).

(** ** Geometry utility *)

(** [point_to_line_dist(p, a, b)].  [None] is the NaN that the unguarded
    division yields; every later operation propagates it. *)
Definition point_to_line_dist (p a b : vec3) : option R :=
  let ab := vsub b a in
  let ap := vsub p a in
  let proj := np_divide (dot ap ab) (dot ab ab) in
  match np_clip proj 0 1 with
  | Some proj =>
      let closest := vadd a (vscale proj ab) in
      Some (norm (vsub p closest))
  | None => None
  end.

(** ** Arrays *)

(** A three-dimensional array, as nested rows ([g !! i] is the plane [g[i]]). *)
Abbreviation ndarray := (list (list (list R))).

(** A position [(i, j, k)] in a three-dimensional array. *)
Abbreviation index := (nat * nat * nat)%type.

Definition tabulate {A} (n : nat) (f : nat → A) : list A := f <$> seq 0 n.

(** The array of shape [(n0, n1, n2)] whose cell [(i, j, k)] is [f i j k]. *)
Definition tabulate3 (n0 n1 n2 : nat) (f : nat → nat → nat → R) : ndarray :=
  tabulate n0 (λ i, tabulate n1 (λ j, tabulate n2 (λ k, f i j k))).

(** [np.zeros((n0, n1, n2))] as a value. *)
Definition zeros (n0 n1 n2 : nat) : ndarray := tabulate3 n0 n1 n2 (λ _ _ _, 0).

(** [g.shape] *)
Definition shape (g : ndarray) : nat * nat * nat :=
  (length g, length (default [] (head g)), length (default [] (head (default [] (head g))))).

(** [g] is a well-formed array of the given shape. *)
Definition has_shape (n0 n1 n2 : nat) (g : ndarray) : Prop :=
  length g = n0 ∧
  Forall (λ plane, length plane = n1 ∧ Forall (λ row : list R, length row = n2) plane) g.

(** A ScalarField of side [n]. *)
Definition cubic (n : nat) (g : ndarray) : Prop := has_shape n n n g.

(** [g[i, j, k]] for non-negative indices; [None] when out of range. *)
Definition getitem (g : ndarray) (x : index) : option R :=
  let '(i, j, k) := x in
  plane ← g !! i; row ← plane !! j; row !! k.

(** The array after [g[i, j, k] = v] and after [g[i, j, k] += v]. *)
Definition setitem (g : ndarray) (x : index) (v : R) : ndarray :=
  let '(i, j, k) := x in alter (alter (alter (λ _, v) k) j) i g.
Definition additem (g : ndarray) (x : index) (v : R) : ndarray :=
  let '(i, j, k) := x in alter (alter (alter (λ c, c + v) k) j) i g.

(** Element-wise operations: [g * c], [c * g] and [g + h] (equal shapes). *)
Definition map3 (f : R → R) (g : ndarray) : ndarray :=
  (λ plane : list (list R), (λ row : list R, f <$> row) <$> plane) <$> g.
Definition scale_array (g : ndarray) (c : R) : ndarray := map3 (λ x, x * c) g.
Definition scalar_times (c : R) (g : ndarray) : ndarray := map3 (λ x, c * x) g.
Definition add_array (g h : ndarray) : ndarray :=
  zip_with (zip_with (zip_with Rplus)) g h.

Definition sumR (l : list R) : R := foldr Rplus 0 l.
(** [np.sum(g)] and [np.prod(g.shape)] *)
Definition np_sum (g : ndarray) : R := sumR ((λ plane, sumR (sumR <$> plane)) <$> g).
Definition np_prod (s : nat * nat * nat) : nat := (s.1.1 * s.1.2 * s.2)%nat.

(** [np.linspace(start, stop, num)] for [num >= 2]. *)
Definition np_linspace (start stop : R) (num : nat) : list R :=
  (λ i, start + INR i * ((stop - start) / INR (num - 1))) <$> seq 0 num.

(** [range(lo, hi)] when [lo] is not negative (the only use: [lo] is a
    [max(0, _)]); the values are then array indices. *)
Definition py_range (lo hi : Z) : list nat :=
  seq (Z.to_nat lo) (Z.to_nat (hi - lo)).

(** ** Exceptions, the store and the random source *)

Inductive exn : Type :=
  | ZeroDivisionError
  | ValueError
  | IndexError
  | InvalidReference. (* a reference that names no object: no Python program has one *)

Inductive result (A : Type) : Type :=
  | Ok (a : A)
  | Raise (e : exn).
Arguments Ok {A} a.
Arguments Raise {A} e.

(** A reference to an array object. *)
Abbreviation ref := nat (only parsing).

(** The array objects alive, by reference, and the random source: the
    sequence of values that the coming calls of [np.random] return. *)
Record state : Type := State { store : list ndarray; rng : nat → R }.

Definition M (A : Type) : Type := state → result (A * state).

#[global] Instance M_ret : MRet M := λ A a st, Ok (a, st).
#[global] Instance M_bind : MBind M := λ A B f m st,
  match m st with
  | Ok (a, st') => f a st'
  | Raise e => Raise e
  end.

Definition raise {A} (e : exn) : M A := λ _, Raise e.

(** [for x in l: body(x)] *)
Fixpoint for_ {A} (l : list A) (body : A → M unit) : M unit :=
  match l with
  | [] => mret tt
  | x :: l => body x ;; for_ l body
  end.

(** A new array object. *)
Definition alloc (a : ndarray) : M ref := λ st,
  Ok (length (store st), State (store st ++ [a]) (rng st)).

(** The current value of an array object. *)
Definition load (r : ref) : M ndarray := λ st,
  match store st !! r with
  | Some a => Ok (a, st)
  | None => Raise InvalidReference
  end.

(** In-place update of an array object. *)
Definition modify (r : ref) (f : ndarray → ndarray) : M unit := λ st,
  match store st !! r with
  | Some a => Ok (tt, State (<[r := f a]> (store st)) (rng st))
  | None => Raise InvalidReference
  end.

(** [np.zeros((n, n, n))]: a negative dimension is a [ValueError]. *)
Definition np_zeros (n : Z) : M ref :=
  if decide (n < 0)%Z then raise ValueError
  else alloc (zeros (Z.to_nat n) (Z.to_nat n) (Z.to_nat n)).

(** [r[i, j, k]], [r[i, j, k] = v] and [r[i, j, k] += v] on an array object;
    an index out of range is an [IndexError]. *)
Definition getitem_ (r : ref) (x : index) : M R :=
  g ← load r;
  match getitem g x with
  | Some v => mret v
  | None => raise IndexError
  end.
Definition setitem_ (r : ref) (x : index) (v : R) : M unit :=
  g ← load r;
  if decide (is_Some (getitem g x)) then modify r (λ g, setitem g x v)
  else raise IndexError.
Definition additem_ (r : ref) (x : index) (v : R) : M unit :=
  g ← load r;
  if decide (is_Some (getitem g x)) then modify r (λ g, additem g x v)
  else raise IndexError.

(** The next value of the random source. *)
Definition draw : M R := λ st,
  Ok (rng st 0%nat, State (store st) (λ n, rng st (S n))).

(** [np.random.uniform(low, high)], [np.random.rand()] and
    [np.random.normal(size=(n0, n1, n2))]; the last one fills a new array
    in row-major order with the next [n0 * n1 * n2] values. *)
Definition np_random_uniform (low high : R) : M R :=
  u ← draw; mret (low + (high - low) * u).
Definition np_random_rand : M R := draw.
Definition np_random_normal (s : nat * nat * nat) : M ndarray := λ st,
  let '(n0, n1, n2) := s in
  Ok (tabulate3 n0 n1 n2 (λ i j k, rng st ((i * n1 + j) * n2 + k)%nat),
      State (store st) (λ n, rng st (n0 * n1 * n2 + n)%nat)).

(** Python's [x / y] on ints and floats: a zero divisor raises. *)
Definition py_truediv (x y : R) : M R :=
  if Req_dec_T y 0 then raise ZeroDivisionError else mret (x / y).

(** [k ** p] on Python ints: an int for [p >= 0], a float otherwise. *)
Definition py_pow (k p : Z) : M R :=
  if decide (0 <= p)%Z then mret (IZR (k ^ p))
  else if decide (k = 0)%Z then raise ZeroDivisionError
  else mret (/ IZR (k ^ (- p))).

(** ** Phase 1: the Foam Generator *)

(** The three nested loops of [generate_vorticity_grid] that rasterize one
    sample point [center] of the segment [x1 x2] (the body of
    [for t in np.linspace(...)] after [center] is computed). *)
Definition rasterize (grid : ref) (size : nat) (sigma chi : R) (x1 x2 center : vec3) : M unit :=
  for_ (py_range (Z.max 0 (py_int (vx center - 3 * sigma)))
                 (Z.min (Z.of_nat size) (py_int (vx center + 3 * sigma + 1)))) (λ i,
    for_ (py_range (Z.max 0 (py_int (vy center - 3 * sigma)))
                   (Z.min (Z.of_nat size) (py_int (vy center + 3 * sigma + 1)))) (λ j,
      for_ (py_range (Z.max 0 (py_int (vz center - 3 * sigma)))
                     (Z.min (Z.of_nat size) (py_int (vz center + 3 * sigma + 1)))) (λ k,
        let p := Vec3 (INR i) (INR j) (INR k) in
        match point_to_line_dist p x1 x2 with
        | Some dist =>
            if Rlt_dec dist (3 * sigma) then
              additem_ grid (i, j, k) (chi * exp (- dist ^ 2 / (2 * sigma ^ 2)))
            else mret tt
        | None => mret tt (* a comparison with a NaN is false *)
        end))).

Definition generate_vorticity_grid (size num_strings : nat) (delta_chi sigma : R) : M ref :=
  grid ← np_zeros (Z.of_nat size);
  let bias := 0.5 + delta_chi / 2 in
  for_ (seq 0 num_strings) (λ _,
    x1_0 ← np_random_uniform 0 (INR size);
    x1_1 ← np_random_uniform 0 (INR size);
    x1_2 ← np_random_uniform 0 (INR size);
    let x1 := Vec3 x1_0 x1_1 x1_2 in
    x2_0 ← np_random_uniform 0 (INR size);
    x2_1 ← np_random_uniform 0 (INR size);
    x2_2 ← np_random_uniform 0 (INR size);
    let x2 := Vec3 x2_0 x2_1 x2_2 in
    r ← np_random_rand;
    let chi := if Rlt_dec r bias then 1 else -1 in
    let num_points := 10%nat in
    for_ (np_linspace 0 1 num_points) (λ t,
      let center := vadd x1 (vscale t (vsub x2 x1)) in
      rasterize grid size sigma chi x1 x2 center));;
  mret grid.

(** ** Phase 3: the Stretch Transform *)

Definition inflation_stretch (grid : ref) (stretch_factor dilution_power : Z) : M ref :=
  g ← load grid;
  let old_size := Z.of_nat (length g) in
  let new_size := (old_size * stretch_factor)%Z in
  new_grid ← np_zeros new_size;
  scale ← py_truediv (IZR new_size) (IZR old_size);
  pw ← py_pow stretch_factor dilution_power;
  dilution ← py_truediv 1 pw;
  for_ (py_range 0 new_size) (λ i,
    q ← py_truediv (INR i) scale;
    let old_i := Z.to_nat (py_int q) in
    for_ (py_range 0 new_size) (λ j,
      q ← py_truediv (INR j) scale;
      let old_j := Z.to_nat (py_int q) in
      for_ (py_range 0 new_size) (λ k,
        q ← py_truediv (INR k) scale;
        let old_k := Z.to_nat (py_int q) in
        v ← getitem_ grid (old_i, old_j, old_k);
        setitem_ new_grid (i, j, k) (v * dilution))));;
  mret new_grid.

(** ** Phase 4: the Oscillation Transform *)

Definition reheating_oscillations (grid : ref) (num_steps : nat)
    (epsilon omega delta_chi : R) : M ref :=
  g ← load grid;
  let size := length g in
  for_ (seq 0 num_steps) (λ step,
    let t := INR step * 0.1 in
    let amp := 1 + epsilon * cos (omega * t) in
    g ← load grid;
    noise ← np_random_normal (shape g);
    let inj := scalar_times (delta_chi * sin (omega * t)) noise in
    modify grid (λ g, scale_array g amp);;
    modify grid (λ g, add_array g inj));;
  mret grid.

(** ** Phase 6: the Cycle Reducer *)

(** [x ** y] on float64 scalars; [None] is a result that is not a finite
    number (an infinity or a NaN). *)
Definition np_power (x y : R) : option R :=
  if Rlt_dec 0 x then Some (Rpower x y)
  else if Req_dec_T x 0 then
    if Rlt_dec 0 y then Some 0 else if Req_dec_T y 0 then Some 1 else None
  else if Req_dec_T (IZR (Zfloor y)) y then Some (powerRZ x (Zfloor y)) else None.

Definition compute_lambda (net_L volume : R) : option R :=
  match np_divide (Rabs net_L) volume with
  | Fin q => x ← np_power q (1 / 3); Some (x * 0.04)
  | _ => None
  end.

Definition compute_v_peak (lamb : R) : R := 220 * (lamb / 0.04).

(** ** The Cycle Driver *)

(** The dictionary that [run_one_cycle] returns. *)
Record CycleResult : Type := {
  net_L_pre : R;
  net_L_post_infl : R;
  net_L_post_reheat : R;
  lambda : option R;
  v_peak : option R;
  helicity : string
}.

Definition np_sum_ (grid : ref) : M R := g ← load grid; mret (np_sum g).

(** [run_one_cycle] with the default arguments of the functions it calls as
    parameters. *)
Definition run_cycle (size num_strings : nat) (delta_chi sigma : R)
    (stretch_factor dilution_power : Z)
    (num_steps : nat) (epsilon omega delta_chi' : R) : M CycleResult :=
  (* Phase 1: Foam *)
  grid ← generate_vorticity_grid size num_strings delta_chi sigma;
  net_L_pre ← np_sum_ grid;
  (* Phase 3: Big Flash Reset *)
  g ← load grid;
  noise ← np_random_normal (shape g);
  modify grid (λ g, add_array g (scalar_times 1e-8 noise));;
  (* Phase 4: Inflation *)
  grid ← inflation_stretch grid stretch_factor dilution_power;
  net_L_post_infl ← np_sum_ grid;
  (* Phase 5: Reheating *)
  grid ← reheating_oscillations grid num_steps epsilon omega delta_chi';
  net_L_post_reheat ← np_sum_ grid;
  (* Phase 6: Proxies *)
  g ← load grid;
  let volume := np_prod (shape g) in
  let lambda_val := compute_lambda net_L_post_reheat (INR volume) in
  let v_peak := compute_v_peak <$> lambda_val in (* not finite when [lambda_val] is not *)
  mret {| net_L_pre := net_L_pre;
          net_L_post_infl := net_L_post_infl;
          net_L_post_reheat := net_L_post_reheat;
          lambda := lambda_val;
          v_peak := v_peak;
          helicity := if Rlt_dec 0 net_L_post_reheat then "+" else "-" |}.

Definition run_one_cycle : M CycleResult :=
  run_cycle 20 50 1e-8 1.0 4 3 50 0.01 (0.2 * PI) 1e-8.

(** ** Specification vocabulary *)

(** The point of parameter [s] on the line through [a] and [b], and the
    clamping of a parameter to the segment. *)
Definition segment_point (a b : vec3) (s : R) : vec3 := vadd a (vscale s (vsub b a)).
Definition clamp01 (u : R) : R := Rmin (Rmax u 0) 1.

(** The state in which the array object [r] has the value [a]. *)
Definition set_obj (r : ref) (a : ndarray) (st : state) : state :=
  State (<[r := a]> (store st)) (rng st).

(** The random source after [n] draws. *)
Definition skip (n : nat) (s : nat → R) : nat → R := λ i, s (n + i)%nat.

(** The positions visited by three nested loops, in the order of the visits. *)
Definition cells3 (l1 l2 l3 : list nat) : list index :=
  i ← l1; j ← l2; k ← l3; [(i, j, k)].

(** The global dilution factor [1 / k^p] of the Stretch Transform. *)
Definition dilution_factor (k p : Z) : R := 1 / powerRZ (IZR k) p.

(** The field of side [n * k] whose cell [(i, j, l)] is the cell
    [(floor(i/k), floor(j/k), floor(l/k))] of [g] times [dil]. *)
Definition stretched (g : ndarray) (n k : nat) (dil : R) : ndarray :=
  tabulate3 (n * k) (n * k) (n * k)
    (λ i j l, default 0 (getitem g (i / k, j / k, l / k)%nat) * dil).

(** The Oscillation Transform, step by step.  At the 0-indexed step [s] the
    time is [t = s * 0.1]; the gain is [1 + ε cos(ω t)] and the injection is
    the next [n^3] values of the random source, one per cell in row-major
    order, scaled by [δ sin(ω t)]. *)
Definition gain (epsilon omega : R) (s : nat) : R :=
  1 + epsilon * cos (omega * (INR s * 0.1)).
Definition injection_scale (delta omega : R) (s : nat) : R :=
  delta * sin (omega * (INR s * 0.1)).

(** The field of side [n] obtained from [g] by the update of step [s]:
    every cell is multiplied by the gain and then receives its injection. *)
Definition oscillation_step (n : nat) (epsilon omega delta : R) (draws : nat → R)
    (s : nat) (g : ndarray) : ndarray :=
  tabulate3 n n n (λ i j k,
    default 0 (getitem g (i, j, k)) * gain epsilon omega s
    + injection_scale delta omega s * draws (s * (n * n * n) + ((i * n + j) * n + k))%nat).

(** The field after the first [m] steps, in sequence. *)
Fixpoint oscillated (n : nat) (epsilon omega delta : R) (draws : nat → R)
    (g : ndarray) (m : nat) : ndarray :=
  match m with
  | O => g
  | S m' =>
      oscillation_step n epsilon omega delta draws m'
        (oscillated n epsilon omega delta draws g m')
  end.

(** The Foam Generator, cell by cell.  The index [i] lies in the window of a
    sample coordinate [c] when [max(0, int(c - 3σ)) <= i < min(N, int(c + 3σ + 1))]:
    the neighbourhood of radius [3σ], clamped to the lattice. *)
Definition window (size : nat) (sigma c : R) (i : nat) : Prop :=
  (Z.max 0 (py_int (c - 3 * sigma)) <= Z.of_nat i
   < Z.min (Z.of_nat size) (py_int (c + 3 * sigma + 1)))%Z.

Definition in_neighbourhood (size : nat) (sigma : R) (center : vec3) (x : index) : Prop :=
  window size sigma (vx center) x.1.1 ∧
  window size sigma (vy center) x.1.2 ∧
  window size sigma (vz center) x.2.

#[global] Instance in_neighbourhood_dec size sigma center x :
  Decision (in_neighbourhood size sigma center x).
Proof. unfold in_neighbourhood, window. apply _. Defined.

(** The kernel value [χ exp(-d² / (2σ²))] of the cell [x] for the segment
    [x1 x2], where [d] is the distance from the cell to the whole segment;
    the code adds it only where [d < 3σ] (and never when [d] is a NaN). *)
Definition kernel (sigma chi : R) (x1 x2 : vec3) (x : index) : R :=
  match point_to_line_dist (Vec3 (INR x.1.1) (INR x.1.2) (INR x.2)) x1 x2 with
  | Some d => if Rlt_dec d (3 * sigma) then chi * exp (- d ^ 2 / (2 * sigma ^ 2)) else 0
  | None => 0
  end.

(** What one sample point adds to the cell [x]. *)
Definition sample_contribution (size : nat) (sigma chi : R) (x1 x2 center : vec3)
    (x : index) : R :=
  if decide (in_neighbourhood size sigma center x) then kernel sigma chi x1 x2 x else 0.

(** The field [g] of side [n] with [C x] added to every cell [x]. *)
Definition add_field (n : nat) (g : ndarray) (C : index → R) : ndarray :=
  tabulate3 n n n (λ i j k, default 0 (getitem g (i, j, k)) + C (i, j, k)).

(** The string number [s] (from 0) reads seven values of the random source:
    three coordinates for each end point and one for the handedness. *)
Definition string_x1 (size : nat) (draws : nat → R) (s : nat) : vec3 :=
  Vec3 (0 + (INR size - 0) * draws (7 * s)%nat)
       (0 + (INR size - 0) * draws (7 * s + 1)%nat)
       (0 + (INR size - 0) * draws (7 * s + 2)%nat).
Definition string_x2 (size : nat) (draws : nat → R) (s : nat) : vec3 :=
  Vec3 (0 + (INR size - 0) * draws (7 * s + 3)%nat)
       (0 + (INR size - 0) * draws (7 * s + 4)%nat)
       (0 + (INR size - 0) * draws (7 * s + 5)%nat).
Definition string_chi (delta_chi : R) (draws : nat → R) (s : nat) : R :=
  if Rlt_dec (draws (7 * s + 6)%nat) (0.5 + delta_chi / 2) then 1 else -1.

(** What the ten sample points of the string [s] add to the cell [x]. *)
Definition string_contribution (size : nat) (delta_chi sigma : R) (draws : nat → R)
    (s : nat) (x : index) : R :=
  let x1 := string_x1 size draws s in
  let x2 := string_x2 size draws s in
  let chi := string_chi delta_chi draws s in
  sumR ((λ t, sample_contribution size sigma chi x1 x2
                (vadd x1 (vscale t (vsub x2 x1))) x) <$> np_linspace 0 1 10).

(** The foam of [num_strings] strings: every cell is the sum of what every
    sample point of every string adds to it. *)
Definition foam (size num_strings : nat) (delta_chi sigma : R) (draws : nat → R) : ndarray :=
  tabulate3 size size size (λ i j k,
    sumR (tabulate num_strings (λ s,
      string_contribution size delta_chi sigma draws s (i, j, k)))).

(** One cycle as a function of the configuration and of the random source.
    The draws are consumed in this order: seven for each string, then one
    for each cell of the foam (the reset injection), then one for each cell
    of the stretched field at each oscillation step. *)
Section Cycle.

Variables (size num_strings : nat) (delta_chi sigma : R).
Variables (stretch_factor dilution_power : Z).
Variables (num_steps : nat) (epsilon omega delta_chi' : R).
Variable draws : nat → R.

Definition foam_field : ndarray := foam size num_strings delta_chi sigma draws.

Definition reset_field : ndarray :=
  add_array foam_field
    (scalar_times 1e-8
       (tabulate3 size size size
          (λ i j k, draws (7 * num_strings + ((i * size + j) * size + k))%nat))).

Definition stretched_field : ndarray :=
  stretched reset_field size (Z.to_nat stretch_factor)
    (dilution_factor stretch_factor dilution_power).

Definition new_size : nat := (size * Z.to_nat stretch_factor)%nat.

Definition reheated_field : ndarray :=
  oscillated new_size epsilon omega delta_chi'
    (skip (7 * num_strings + size * size * size) draws) stretched_field num_steps.

Definition cycle_result : CycleResult :=
  let net_L_post_reheat := np_sum reheated_field in
  let lambda_val :=
    compute_lambda net_L_post_reheat (INR (new_size * new_size * new_size)) in
  {| net_L_pre := np_sum foam_field;
     net_L_post_infl := np_sum stretched_field;
     net_L_post_reheat := net_L_post_reheat;
     lambda := lambda_val;
     v_peak := compute_v_peak <$> lambda_val;
     helicity := if Rlt_dec 0 net_L_post_reheat then "+" else "-" |}.

(** The number of draws of one cycle. *)
Definition draws_used : nat :=
  (7 * num_strings + size * size * size + num_steps * (new_size * new_size * new_size))%nat.

End Cycle.

(** ** Further vocabulary *)

(** [for x in l: ...] with a local variable [acc] that the body updates. *)
Fixpoint for_acc {A S} (l : list A) (body : A → S → M S) (acc : S) : M S :=
  match l with
  | [] => mret acc
  | x :: l => acc' ← body x acc; for_acc l body acc'
  end.

(** The loop of the main block that runs the cycles and collects their
    records in the list [cycles]; what it prints goes to the terminal and
    touches neither the arrays nor the random source. *)
Definition main_cycles : M (list CycleResult) :=
  for_acc (seq 0 5) (λ c cycles,
    result ← run_one_cycle;
    mret (cycles ++ [result])) [].




(** The distance that [point_to_line_dist] returns when the squared length
    [dot ab ab] of the segment is not zero: the quotient is then a number and
    [np.clip] clamps it to [0, 1]. *)
Definition segment_dist (p a b : vec3) : R :=
  norm (vsub p (segment_point a b
          (clamp01 (dot (vsub p a) (vsub b a) / dot (vsub b a) (vsub b a))))).

(** What one sample point of a segment of non-zero squared length adds to
    the cell [x]: the kernel value, when the cell lies in the window of the
    sample and is nearer than [3σ] to the segment. *)
Definition sample_kernel (size : nat) (sigma chi : R) (x1 x2 center : vec3)
    (x : index) : R :=
  if decide (in_neighbourhood size sigma center x) then
    let d := segment_dist (Vec3 (INR x.1.1) (INR x.1.2) (INR x.2)) x1 x2 in
    if Rlt_dec d (3 * sigma) then chi * exp (- d ^ 2 / (2 * sigma ^ 2)) else 0
  else 0.

(** The value that the updates [grid[i, j, k] += ...] leave in a cell, in
    the order of their execution: string after string, and for each string
    sample point after sample point, starting from 0.  [K s t] is what the
    sample point of parameter [t] of the string number [s] adds to the cell. *)
Definition accumulate (K : nat → R → R) (num_strings : nat) : R :=
  foldl (λ acc s, foldl (λ acc t, acc + K s t) acc (np_linspace 0 1 10))
    0 (seq 0 num_strings).

(** The integer powers for which [1.0 / (k ** p)] stays inside the range of
    float64: beyond it Python raises [OverflowError] (or, for a negative
    power, divides by a power that has underflowed to zero). *)
Definition in_float_range (k p : Z) : Prop := (k ^ Z.abs p < 2 ^ 1023)%Z.

(** The positions of the field of side [n * k] that [inflation_stretch]
    fills from the input cell [(a, b, c)]. *)
Definition block (n k a b c : nat) : list index :=
  filter (λ x : index, (x.1.1 / k)%nat = a ∧ (x.1.2 / k)%nat = b ∧ (x.2 / k)%nat = c)
    (cells3 (seq 0 (n * k)) (seq 0 (n * k)) (seq 0 (n * k))).

(** The field after the first [m] oscillation steps when nothing is
    injected: one multiplication of every cell for each step, in sequence. *)
Definition scaled_in_steps (epsilon omega : R) (g : ndarray) (m : nat) : ndarray :=
  foldl (λ a s, scale_array a (gain epsilon omega s)) g (seq 0 m).

(** Two random sources for one string.  [unit_draws c] gives the end points
    (1/2, 1/2, 1/2) and (3/5, 1/2, 1/2) on a lattice of side 1 and the
    handedness draw [c]; [corner_draws] gives the end points (5/2, 5/2, 5/2)
    and (7/2, 5/2, 5/2) on a lattice of side 4 and the handedness +1. *)
Definition unit_draws (c : R) : nat → R :=
  λ i, if decide (i = 3%nat) then 3/5 else if decide (i = 6%nat) then c else 1/2.

Definition corner_draws : nat → R :=
  λ i, if decide (i = 3%nat) then 7/8 else if decide (i = 6%nat) then 0 else 5/8.

(** ** Binary64 arithmetic *)

(** The geometry utility and the Stretch Transform once more, on IEEE 754
    binary64 numbers: every operation rounds to nearest (ties to even),
    overflows to an infinity and yields a NaN for 0/0, as the float64
    operations of NumPy and the floats of CPython do.  The functions act on
    array values; the store plays no role here. *)
Module Binary64.

Local Open Scope float_scope.

Inductive error : Type :=
  | ZeroDivisionError
  | OverflowError
  | ValueError
  | IndexError.

Inductive outcome (A : Type) : Type :=
  | Returns (a : A)
  | Raises (e : error).
Arguments Returns {A} a.
Arguments Raises {A} e.

#[local] Instance outcome_ret : MRet outcome := λ A a, Returns a.
#[local] Instance outcome_bind : MBind outcome := λ A B f m,
  match m with
  | Returns a => f a
  | Raises e => Raises e
  end.

(** A one-dimensional array of three float64 values. *)
Record vec3 : Type := Vec3 { vx : float; vy : float; vz : float }.

Definition vadd (u v : vec3) : vec3 := Vec3 (vx u + vx v) (vy u + vy v) (vz u + vz v).
Definition vsub (u v : vec3) : vec3 := Vec3 (vx u - vx v) (vy u - vy v) (vz u - vz v).
Definition vscale (c : float) (v : vec3) : vec3 := Vec3 (c * vx v) (c * vy v) (c * vz v).
(** [np.dot]: the sum of the three products.  (A BLAS kernel may fuse a
    product with the addition that follows; on the vectors used below at
    most one product is not zero, and both evaluations agree.) *)
Definition dot (u v : vec3) : float := vx u * vx v + vy u * vy v + vz u * vz v.
(** [np.linalg.norm] of a vector: [sqrt(dot(v, v))]. *)
Definition norm (v : vec3) : float := PrimFloat.sqrt (dot v v).

(** [np.clip(x, lo, hi)] = [min(max(x, lo), hi)], where [max(a, b)] is [a]
    for a NaN [a] and otherwise [a > b ? a : b], and likewise for [min]: a
    NaN stays a NaN. *)
Definition np_clip (x lo hi : float) : float :=
  let m := if is_nan x then x else if lo <? x then x else lo in
  if is_nan m then m else if m <? hi then m else hi.

Definition point_to_line_dist (p a b : vec3) : float :=
  let ab := vsub b a in
  let ap := vsub p a in
  let proj := dot ap ab / dot ab ab in
  let proj := np_clip proj 0 1 in
  let closest := vadd a (vscale proj ab) in
  norm (vsub p closest).

(** The float nearest to a Python int (ties to even), and the conversion
    that Python applies to an int operand of a float operation: an int
    that rounds beyond the largest float raises [OverflowError]. *)
Definition float_of_int (z : Z) : float := SF2Prim (binary_normalize prec emax z 0 false).

Definition py_float (z : Z) : outcome float :=
  let x := float_of_int z in
  if is_infinity x then Raises OverflowError else Returns x.

(** [x / y] on two ints, on a float and an int, on an int and a float: a
    zero divisor raises.  (For two ints Python returns the correctly
    rounded quotient; it is the quotient of the two conversions when both
    are below 2^53, as the sizes of an array are.) *)
Definition py_truediv_int_int (x y : Z) : outcome float :=
  if (y =? 0)%Z then Raises ZeroDivisionError
  else a ← py_float x; b ← py_float y; Returns (a / b).

Definition py_truediv_float_int (x : float) (y : Z) : outcome float :=
  b ← py_float y;
  if is_zero b then Raises ZeroDivisionError else Returns (x / b).

Definition py_truediv_int_float (x : Z) (y : float) : outcome float :=
  a ← py_float x;
  if is_zero y then Raises ZeroDivisionError else Returns (a / y).

(** [int(x)] on a float: truncation towards zero; an infinity and a NaN raise. *)
Definition py_int (x : float) : outcome Z :=
  match Prim2SF x with
  | S754_zero _ => Returns 0%Z
  | S754_finite s m e =>
      let a := if (0 <=? e)%Z then (Z.pos m * 2 ^ e)%Z else (Z.pos m / 2 ^ (- e))%Z in
      Returns (if s then (- a)%Z else a)
  | S754_infinity _ => Raises OverflowError
  | S754_nan => Raises ValueError
  end.

Abbreviation ndarray := (list (list (list float))).

Definition getitem (g : ndarray) (i j k : nat) : option float :=
  plane ← g !! i; row ← plane !! j; row !! k.

Definition py_range (n : Z) : list Z := Z.of_nat <$> seq 0 (Z.to_nat n).

(** [inflation_stretch] for a dilution power that is a non-negative int
    (Python evaluates [k ** p] for a negative [p] with the [pow] of the C
    library, which has no counterpart here).  The result is the array that
    the three loops leave in [new_grid]. *)
Definition inflation_stretch (grid : ndarray) (stretch_factor : Z) (dilution_power : N)
    : outcome ndarray :=
  let old_size := Z.of_nat (length grid) in
  let new_size := (old_size * stretch_factor)%Z in
  if (new_size <? 0)%Z then Raises ValueError
  else
    scale ← py_truediv_int_int new_size old_size;
    dilution ← py_truediv_float_int 1 (stretch_factor ^ Z.of_N dilution_power);
    mapM (λ i,
      q ← py_truediv_int_float i scale; old_i ← py_int q;
      mapM (λ j,
        q ← py_truediv_int_float j scale; old_j ← py_int q;
        mapM (λ k,
          q ← py_truediv_int_float k scale; old_k ← py_int q;
          match getitem grid (Z.to_nat old_i) (Z.to_nat old_j) (Z.to_nat old_k) with
          | Some v => Returns (v * dilution)
          | None => Raises IndexError
          end) (py_range new_size)) (py_range new_size)) (py_range new_size).

(** The values that adding up the numbers of a list can give: NumPy adds
    the cells of an array in blocks and pairs, in an order that depends on
    its size and layout, so every order and every grouping is allowed here
    (an empty sum is a zero of either sign). *)
Inductive sums_to : list float → float → Prop :=
  | sums_nil : sums_to [] 0
  | sums_nil_neg : sums_to [] (-0)
  | sums_one x : sums_to [x] x
  | sums_app l1 l2 s1 s2 : sums_to l1 s1 → sums_to l2 s2 → sums_to (l1 ++ l2) (s1 + s2)
  | sums_perm l l' s : l ≡ₚ l' → sums_to l s → sums_to l' s.

(** [np.sum(g)] can return [s]. *)
Definition np_sum (g : ndarray) (s : float) : Prop := sums_to (concat (concat g)) s.

End Binary64.

(** * Properties *)
(** ** Geometry *)

(** The point [a + s * (b - a)] of the line through [a] and [b]. *)

Section Geometry.

Implicit Types p a b : vec3.

Lemma vec3_eq u v : vx u = vx v → vy u = vy v → vz u = vz v → u = v.
Proof. destruct u, v; simpl; intros; subst; reflexivity. Qed.

Lemma dot_self_nonneg v : 0 <= dot v v.
Proof. unfold dot. nra. Qed.

Lemma dot_self_zero v : dot v v = 0 → vx v = 0 ∧ vy v = 0 ∧ vz v = 0.
Proof. unfold dot. intros H. repeat split; nra. Qed.

Lemma segment_length_pos a b : a ≠ b → 0 < dot (vsub b a) (vsub b a).
Proof.
  intros Hne. destruct (dot_self_nonneg (vsub b a)) as [Hlt | Heq]; [exact Hlt|].
  exfalso. apply Hne. symmetry in Heq. apply dot_self_zero in Heq.
  simpl in Heq. destruct Heq as (Hx & Hy & Hz).
  apply vec3_eq; lra.
Qed.

Lemma clamp01_range u : 0 <= clamp01 u <= 1.
Proof.
  unfold clamp01, Rmin, Rmax.
  repeat destruct Rle_dec; lra.
Qed.

Lemma point_to_line_dist_defined p a b :
  a ≠ b →
  point_to_line_dist p a b =
    Some (norm (vsub p (segment_point a b
            (clamp01 (dot (vsub p a) (vsub b a) / dot (vsub b a) (vsub b a)))))).
Proof.
  intros Hne. pose proof (segment_length_pos a b Hne) as Hpos.
  unfold point_to_line_dist, np_divide.
  destruct (Req_dec_T (dot (vsub b a) (vsub b a)) 0) as [H0 | _]; [lra|].
  reflexivity.
Qed.

Lemma point_to_line_dist_nonzero p a b :
  dot (vsub b a) (vsub b a) ≠ 0 → point_to_line_dist p a b = Some (segment_dist p a b).
Proof.
  intros Hne. unfold point_to_line_dist, np_divide.
  destruct (Req_dec_T (dot (vsub b a) (vsub b a)) 0) as [H0 | _]; [contradiction|].
  reflexivity.
Qed.

Lemma segment_point_0 a b : segment_point a b 0 = a.
Proof. apply vec3_eq; simpl; ring. Qed.

(** On a zero-length segment the division is not guarded: the quotient 0/0
    is a NaN and [point_to_line_dist] returns it. *)
Lemma point_to_line_dist_degenerate p a :
  point_to_line_dist p a a = None.
Proof.
  unfold point_to_line_dist, np_divide.
  replace (dot (vsub a a) (vsub a a)) with 0 by (unfold dot, vsub; simpl; ring).
  replace (dot (vsub p a) (vsub a a)) with 0 by (unfold dot, vsub; simpl; ring).
  destruct (Req_dec_T 0 0) as [_ | H]; [reflexivity | lra].
Qed.

(** C7. [point_to_line_dist] is not division-guarded on a zero-length
    segment: at [p] = (1, 0, 0) and [a = b] = the origin, where the distance
    [|p - a|] is 1, the quotient 0/0 is a NaN and the function returns it. *)
Theorem point_to_line_dist_degenerate_example :
  point_to_line_dist (Vec3 1 0 0) (Vec3 0 0 0) (Vec3 0 0 0) = None ∧
  norm (vsub (Vec3 1 0 0) (Vec3 0 0 0)) = 1.
Proof.
  split; [apply point_to_line_dist_degenerate|].
  unfold norm, dot, vsub. simpl.
  replace ((1 - 0) * (1 - 0) + (0 - 0) * (0 - 0) + (0 - 0) * (0 - 0)) with 1 by ring.
  apply sqrt_1.
Qed.

End Geometry.

(** ** The geometry utility on binary64 numbers *)

(** C6.  [point_to_line_dist] does not return the distance to the segment
    for every segment with distinct end points.  Between (0, 0, 0) and
    (2^-600, 0, 0) the squared length underflows to zero: the quotient is
    0/0 and the result for the point (0, 1, 0), which is at the distance 1
    from the end point (0, 0, 0), is a NaN.  Between (0, 0, 0) and
    (2^700, 0, 0) the squared length overflows: the projection parameter is 0
    and the result for the point (3, 4, 0) is 5, although the point (3, 0, 0)
    of the segment, of parameter 3 * 2^-700, is at the distance 4. *)
Theorem point_to_line_dist_short_or_long_segment :
  Binary64.Vec3 0 0 0 ≠ Binary64.Vec3 0x1p-600 0 0 ∧
  Binary64.point_to_line_dist
    (Binary64.Vec3 0 1 0) (Binary64.Vec3 0 0 0) (Binary64.Vec3 0x1p-600 0 0) = nan ∧
  Binary64.norm (Binary64.vsub (Binary64.Vec3 0 1 0) (Binary64.Vec3 0 0 0)) = 1%float ∧
  Binary64.point_to_line_dist
    (Binary64.Vec3 3 4 0) (Binary64.Vec3 0 0 0) (Binary64.Vec3 0x1p700 0 0) = 5%float ∧
  Binary64.vadd (Binary64.Vec3 0 0 0)
    (Binary64.vscale 0x1.8p-699
       (Binary64.vsub (Binary64.Vec3 0x1p700 0 0) (Binary64.Vec3 0 0 0)))
    = Binary64.Vec3 3 0 0 ∧
  (0 <=? 0x1.8p-699)%float = true ∧ (0x1.8p-699 <=? 1)%float = true ∧
  Binary64.norm (Binary64.vsub (Binary64.Vec3 3 4 0) (Binary64.Vec3 3 0 0)) = 4%float.
Proof.
  split.
  - intros H. apply (f_equal (λ v, is_zero (Binary64.vx v))) in H.
    vm_compute in H. discriminate.
  - vm_compute. repeat split.
Qed.

(** ** Arrays: lookups, shapes and sums *)

Section Arrays.

Implicit Types g h : ndarray.
Implicit Types x y : index.

Lemma lookup_tabulate {A} (f : nat → A) n i :
  (i < n)%nat → tabulate n f !! i = Some (f i).
Proof.
  intros Hi. unfold tabulate. rewrite list_lookup_fmap, lookup_seq_lt by exact Hi.
  reflexivity.
Qed.

Lemma lookup_tabulate_ge {A} (f : nat → A) n i :
  (n <= i)%nat → tabulate n f !! i = None.
Proof.
  intros Hi. unfold tabulate. rewrite list_lookup_fmap, lookup_seq_ge by exact Hi.
  reflexivity.
Qed.

Lemma length_tabulate {A} (f : nat → A) n : length (tabulate n f) = n.
Proof. unfold tabulate. rewrite length_fmap, length_seq. reflexivity. Qed.

Lemma tabulate_ext {A} (f f' : nat → A) n :
  (∀ i, (i < n)%nat → f i = f' i) → tabulate n f = tabulate n f'.
Proof.
  intros H. unfold tabulate. apply list_fmap_ext.
  intros i x Hx. apply lookup_seq in Hx as [-> Hlt]. apply H. lia.
Qed.

Lemma getitem_tabulate3 n0 n1 n2 f i j k :
  (i < n0)%nat → (j < n1)%nat → (k < n2)%nat →
  getitem (tabulate3 n0 n1 n2 f) (i, j, k) = Some (f i j k).
Proof.
  intros Hi Hj Hk. unfold getitem, tabulate3.
  rewrite lookup_tabulate by exact Hi. simpl.
  rewrite lookup_tabulate by exact Hj. simpl.
  apply lookup_tabulate, Hk.
Qed.

Lemma has_shape_tabulate3 n0 n1 n2 f : has_shape n0 n1 n2 (tabulate3 n0 n1 n2 f).
Proof.
  split; [apply length_tabulate|].
  unfold tabulate3, tabulate. apply Forall_fmap, Forall_forall. intros i _. simpl.
  split; [rewrite length_fmap, length_seq; reflexivity|].
  apply Forall_fmap, Forall_forall. intros j _. simpl.
  rewrite length_fmap, length_seq. reflexivity.
Qed.

Lemma tabulate3_ext n0 n1 n2 f f' :
  (∀ i j k, (i < n0)%nat → (j < n1)%nat → (k < n2)%nat → f i j k = f' i j k) →
  tabulate3 n0 n1 n2 f = tabulate3 n0 n1 n2 f'.
Proof.
  intros H. unfold tabulate3.
  apply tabulate_ext. intros i Hi. apply tabulate_ext. intros j Hj.
  apply tabulate_ext. intros k Hk. apply H; assumption.
Qed.

(** Cells exist exactly inside the shape. *)
Lemma getitem_in_range n0 n1 n2 g i j k :
  has_shape n0 n1 n2 g →
  (i < n0)%nat → (j < n1)%nat → (k < n2)%nat → is_Some (getitem g (i, j, k)).
Proof.
  intros [Hlen Hall] Hi Hj Hk. unfold getitem.
  destruct (lookup_lt_is_Some_2 g i) as [plane Hplane]; [lia|].
  rewrite Hplane. simpl.
  destruct (proj1 (Forall_lookup _ _) Hall i plane Hplane) as [Hl1 Hrows].
  destruct (lookup_lt_is_Some_2 plane j) as [row Hrow]; [lia|].
  rewrite Hrow. simpl.
  pose proof (proj1 (Forall_lookup _ _) Hrows j row Hrow) as Hl2. simpl in Hl2.
  apply lookup_lt_is_Some_2. lia.
Qed.

Lemma getitem_out_of_range n0 n1 n2 g i j k :
  has_shape n0 n1 n2 g →
  is_Some (getitem g (i, j, k)) → (i < n0)%nat ∧ (j < n1)%nat ∧ (k < n2)%nat.
Proof.
  intros [Hlen Hall] [v Hv]. unfold getitem in Hv.
  destruct (g !! i) as [plane|] eqn:Hplane; [|discriminate]. simpl in Hv.
  destruct (plane !! j) as [row|] eqn:Hrow; [|discriminate]. simpl in Hv.
  destruct (proj1 (Forall_lookup _ _) Hall i plane Hplane) as [Hl1 Hrows].
  pose proof (proj1 (Forall_lookup _ _) Hrows j row Hrow) as Hl2. simpl in Hl2.
  apply lookup_lt_Some in Hplane, Hrow, Hv. lia.
Qed.

(** An array is determined by its shape and its cells. *)
Lemma array_eq_tabulate n0 n1 n2 g (f : nat → nat → nat → R) :
  has_shape n0 n1 n2 g →
  (∀ i j k, (i < n0)%nat → (j < n1)%nat → (k < n2)%nat →
     getitem g (i, j, k) = Some (f i j k)) →
  g = tabulate3 n0 n1 n2 f.
Proof.
  intros [Hlen Hall] Hcells. unfold tabulate3.
  apply list_eq_same_length with n0; [apply length_tabulate | exact Hlen |].
  intros i plane plane' Hi Hplane Hplane'.
  rewrite lookup_tabulate in Hplane' by exact Hi. injection Hplane' as <-.
  destruct (proj1 (Forall_lookup _ _) Hall i plane Hplane) as [Hl1 Hrows].
  apply list_eq_same_length with n1; [apply length_tabulate | exact Hl1 |].
  intros j row row' Hj Hrow Hrow'.
  rewrite lookup_tabulate in Hrow' by exact Hj. injection Hrow' as <-.
  pose proof (proj1 (Forall_lookup _ _) Hrows j row Hrow) as Hl2. simpl in Hl2.
  apply list_eq_same_length with n2; [apply length_tabulate | exact Hl2 |].
  intros k v v' Hk Hv Hv'.
  rewrite lookup_tabulate in Hv' by exact Hk. injection Hv' as <-.
  specialize (Hcells i j k Hi Hj Hk). unfold getitem in Hcells.
  rewrite Hplane in Hcells. simpl in Hcells. rewrite Hrow in Hcells. simpl in Hcells.
  congruence.
Qed.

Lemma array_ext n0 n1 n2 g h :
  has_shape n0 n1 n2 g → has_shape n0 n1 n2 h →
  (∀ i j k, (i < n0)%nat → (j < n1)%nat → (k < n2)%nat →
     getitem g (i, j, k) = getitem h (i, j, k)) →
  g = h.
Proof.
  intros Hg Hh Hcells.
  rewrite (array_eq_tabulate n0 n1 n2 h (λ i j k, default 0 (getitem h (i, j, k)))); [|exact Hh|].
  - apply array_eq_tabulate; [exact Hg|]. intros i j k Hi Hj Hk.
    rewrite Hcells by assumption.
    destruct (getitem_in_range n0 n1 n2 h i j k Hh Hi Hj Hk) as [v ->]. reflexivity.
  - intros i j k Hi Hj Hk.
    destruct (getitem_in_range n0 n1 n2 h i j k Hh Hi Hj Hk) as [v ->]. reflexivity.
Qed.

(** The shape read off a cubic array. *)
Lemma shape_cubic n g : cubic n g → shape g = (n, n, n).
Proof.
  intros [Hlen Hall]. unfold shape.
  destruct g as [|plane g]; simpl in *; [subst; reflexivity|].
  apply Forall_cons in Hall as [[Hl1 Hrows] _].
  destruct plane as [|row plane]; simpl in *; [congruence|].
  apply Forall_cons in Hrows as [Hl2 _]. congruence.
Qed.

(** Item updates. *)
Lemma getitem_alter3 (f : R → R) g i j k y :
  getitem (alter (alter (alter f k) j) i g) y =
    if decide ((i, j, k) = y) then f <$> getitem g y else getitem g y.
Proof.
  destruct y as [[i' j'] k']. unfold getitem.
  destruct (decide (i = i')) as [<- | Hi].
  - rewrite list_lookup_alter_eq. destruct (g !! i) as [plane|]; simpl.
    + destruct (decide (j = j')) as [<- | Hj].
      * rewrite list_lookup_alter_eq. destruct (plane !! j) as [row|]; simpl.
        -- destruct (decide (k = k')) as [<- | Hk].
           ++ rewrite list_lookup_alter_eq. rewrite decide_True by reflexivity. reflexivity.
           ++ rewrite list_lookup_alter_ne by exact Hk.
              rewrite decide_False by congruence. reflexivity.
        -- destruct (decide _); reflexivity.
      * rewrite list_lookup_alter_ne by exact Hj.
        rewrite decide_False by congruence. reflexivity.
    + destruct (decide _); reflexivity.
  - rewrite list_lookup_alter_ne by exact Hi.
    rewrite decide_False by congruence. reflexivity.
Qed.

Lemma getitem_setitem g x v y :
  getitem (setitem g x v) y =
    if decide (x = y) then (λ _, v) <$> getitem g y else getitem g y.
Proof. destruct x as [[i j] k]. apply getitem_alter3. Qed.

Lemma getitem_additem g x v y :
  getitem (additem g x v) y =
    if decide (x = y) then (λ c, c + v) <$> getitem g y else getitem g y.
Proof. destruct x as [[i j] k]. apply getitem_alter3. Qed.

Lemma has_shape_alter3 n0 n1 n2 (f : R → R) g i j k :
  has_shape n0 n1 n2 g → has_shape n0 n1 n2 (alter (alter (alter f k) j) i g).
Proof.
  intros [Hlen Hall]. split; [rewrite length_alter; exact Hlen|].
  apply Forall_lookup. intros i' plane' Hplane'.
  rewrite list_lookup_alter in Hplane'.
  destruct (decide (i = i')) as [<- | Hi].
  - destruct (g !! i) as [plane|] eqn:Hplane; [|discriminate].
    simpl in Hplane'. injection Hplane' as <-.
    destruct (proj1 (Forall_lookup _ _) Hall i plane Hplane) as [Hl1 Hrows].
    split; [rewrite length_alter; exact Hl1|].
    apply Forall_lookup. intros j' row' Hrow'.
    rewrite list_lookup_alter in Hrow'.
    destruct (decide (j = j')) as [<- | Hj].
    + destruct (plane !! j) as [row|] eqn:Hrow; [|discriminate].
      simpl in Hrow'. injection Hrow' as <-.
      pose proof (proj1 (Forall_lookup _ _) Hrows j row Hrow) as Hl2. simpl in Hl2.
      rewrite length_alter. exact Hl2.
    + exact (proj1 (Forall_lookup _ _) Hrows j' row' Hrow').
  - exact (proj1 (Forall_lookup _ _) Hall i' plane' Hplane').
Qed.

Lemma has_shape_setitem n0 n1 n2 g x v :
  has_shape n0 n1 n2 g → has_shape n0 n1 n2 (setitem g x v).
Proof. destruct x as [[i j] k]. apply has_shape_alter3. Qed.

Lemma has_shape_additem n0 n1 n2 g x v :
  has_shape n0 n1 n2 g → has_shape n0 n1 n2 (additem g x v).
Proof. destruct x as [[i j] k]. apply has_shape_alter3. Qed.

(** Nested loops as one loop over the visited positions. *)
Lemma foldl_cells3 {C} (F : index → C → C) (l1 l2 l3 : list nat) (c : C) :
  foldl (λ c i, foldl (λ c j, foldl (λ c k, F (i, j, k) c) c l3) c l2) c l1
  = foldl (λ c x, F x c) c (cells3 l1 l2 l3).
Proof.
  unfold cells3. revert c. induction l1 as [|i l1 IH1]; intros c; [reflexivity|].
  simpl. rewrite foldl_app, <- IH1. f_equal.
  clear IH1. revert c. induction l2 as [|j l2 IH2]; intros c; [reflexivity|].
  simpl. rewrite foldl_app, <- IH2. f_equal.
  clear IH2. revert c. induction l3 as [|k l3 IH3]; intros c; [reflexivity|].
  simpl. apply IH3.
Qed.

Lemma elem_of_cells3 l1 l2 l3 i j k :
  (i, j, k) ∈ cells3 l1 l2 l3 ↔ i ∈ l1 ∧ j ∈ l2 ∧ k ∈ l3.
Proof.
  unfold cells3. rewrite list_elem_of_bind. split.
  - intros (i' & Hin & Hi'). apply list_elem_of_bind in Hin as (j' & Hin & Hj').
    apply list_elem_of_bind in Hin as (k' & Hin & Hk').
    apply list_elem_of_singleton in Hin. injection Hin as -> -> ->. auto.
  - intros (Hi & Hj & Hk). exists i. split; [|exact Hi].
    apply list_elem_of_bind. exists j. split; [|exact Hj].
    apply list_elem_of_bind. exists k. split; [|exact Hk].
    apply list_elem_of_singleton. reflexivity.
Qed.

Lemma NoDup_cells3 l1 l2 l3 :
  NoDup l1 → NoDup l2 → NoDup l3 → NoDup (cells3 l1 l2 l3).
Proof.
  intros H1 H2 H3. unfold cells3. apply NoDup_bind; [| |exact H1].
  - intros i i' [[a b] c] _ _ Hin Hin'.
    apply list_elem_of_bind in Hin as (j & Hin & _).
    apply list_elem_of_bind in Hin as (k & Hin & _).
    apply list_elem_of_bind in Hin' as (j' & Hin' & _).
    apply list_elem_of_bind in Hin' as (k' & Hin' & _).
    apply list_elem_of_singleton in Hin, Hin'. congruence.
  - intros i _. apply NoDup_bind; [| |exact H2].
    + intros j j' [[a b] c] _ _ Hin Hin'.
      apply list_elem_of_bind in Hin as (k & Hin & _).
      apply list_elem_of_bind in Hin' as (k' & Hin' & _).
      apply list_elem_of_singleton in Hin, Hin'. congruence.
    + intros j _. apply NoDup_bind; [| |exact H3].
      * intros k k' [[a b] c] _ _ Hin Hin'.
        apply list_elem_of_singleton in Hin, Hin'. congruence.
      * intros k _. apply NoDup_singleton.
Qed.

Lemma length_bind_const {A B} (f : A → list B) (n : nat) (l : list A) :
  (∀ a, length (f a) = n) → length (l ≫= f) = (length l * n)%nat.
Proof.
  intros Hf. induction l as [|a l IH]; [reflexivity|].
  change ((a :: l) ≫= f) with (f a ++ (l ≫= f)).
  rewrite length_app, Hf, IH. simpl. lia.
Qed.

Lemma length_cells3 (l1 l2 l3 : list nat) :
  length (cells3 l1 l2 l3) = (length l1 * length l2 * length l3)%nat.
Proof.
  unfold cells3.
  rewrite (length_bind_const _ (length l2 * length l3)); [lia|].
  intros i. rewrite (length_bind_const _ (length l3)); [lia|].
  intros j. rewrite (length_bind_const _ 1); [lia|]. reflexivity.
Qed.

(** Assigning the value [V x] to every position [x] of a list. *)
Lemma getitem_foldl_setitem (V : index → R) (l : list index) g y :
  getitem (foldl (λ g x, setitem g x (V x)) g l) y =
    if decide (y ∈ l) then (λ _, V y) <$> getitem g y else getitem g y.
Proof.
  revert g. induction l as [|x l IH]; intros g; cbn [foldl].
  - rewrite decide_False by apply not_elem_of_nil. reflexivity.
  - rewrite IH, getitem_setitem.
    destruct (decide (y ∈ x :: l)) as [Hin' | Hnin'];
      destruct (decide (y ∈ l)) as [Hin | Hnin];
      destruct (decide (x = y)) as [-> | Hne]; try reflexivity.
    + destruct (getitem g y); reflexivity.
    + apply elem_of_cons in Hin' as [-> | Hin']; [congruence | contradiction].
    + exfalso. apply Hnin', elem_of_cons. right. exact Hin.
    + exfalso. apply Hnin', elem_of_cons. right. exact Hin.
    + exfalso. apply Hnin', elem_of_cons. left. reflexivity.
Qed.

(** Sums. *)
Lemma sumR_app (l1 l2 : list R) : sumR (l1 ++ l2) = sumR l1 + sumR l2.
Proof.
  induction l1 as [|a0 l1 IH]; simpl; [lra|]. unfold sumR in *. simpl. rewrite IH. lra.
Qed.

Lemma sumR_const {A} (f : A → R) (c : R) (l : list A) :
  (∀ a, a ∈ l → f a = c) → sumR (f <$> l) = INR (length l) * c.
Proof.
  induction l as [|a0 l IH]; intros H.
  - simpl. unfold sumR. simpl. lra.
  - cbn [fmap list_fmap length]. rewrite S_INR. unfold sumR in *. cbn [foldr].
    rewrite IH by (intros; apply H, elem_of_cons; right; assumption).
    rewrite H by (apply elem_of_cons; left; reflexivity). lra.
Qed.

Lemma sumR_ext {A} (f f' : A → R) (l : list A) :
  (∀ a, a ∈ l → f a = f' a) → sumR (f <$> l) = sumR (f' <$> l).
Proof.
  intros H. f_equal. apply list_fmap_ext. intros i a Ha. apply H.
  eapply list_elem_of_lookup_2, Ha.
Qed.

Lemma sumR_tabulate_ext (f f' : nat → R) n :
  (∀ i, (i < n)%nat → f i = f' i) → sumR (tabulate n f) = sumR (tabulate n f').
Proof. intros H. f_equal. apply tabulate_ext, H. Qed.

Lemma tabulate_S {A} (f : nat → A) n : tabulate (S n) f = tabulate n f ++ [f n].
Proof. unfold tabulate. rewrite seq_S, fmap_app. reflexivity. Qed.

(** Element-wise operations on tabulated arrays. *)
Lemma has_shape_as_tabulate3 n0 n1 n2 g :
  has_shape n0 n1 n2 g →
  g = tabulate3 n0 n1 n2 (λ i j k, default 0 (getitem g (i, j, k))).
Proof.
  intros Hg. apply array_eq_tabulate; [exact Hg|]. intros i j k Hi Hj Hk.
  destruct (getitem_in_range _ _ _ g i j k Hg Hi Hj Hk) as [v ->]. reflexivity.
Qed.

Lemma fmap_tabulate {A B} (f : A → B) (a : nat → A) n :
  f <$> tabulate n a = tabulate n (λ i, f (a i)).
Proof. unfold tabulate. rewrite <- list_fmap_compose. reflexivity. Qed.

Lemma zip_with_tabulate {A B C} (f : A → B → C) (a : nat → A) (b : nat → B) n :
  zip_with f (tabulate n a) (tabulate n b) = tabulate n (λ i, f (a i) (b i)).
Proof.
  unfold tabulate. generalize 0%nat. induction n as [|n IH]; intros s; [reflexivity|].
  simpl. f_equal. apply IH.
Qed.

Lemma map3_tabulate3 (f : R → R) n0 n1 n2 a :
  map3 f (tabulate3 n0 n1 n2 a) = tabulate3 n0 n1 n2 (λ i j k, f (a i j k)).
Proof.
  unfold map3, tabulate3. rewrite fmap_tabulate.
  apply tabulate_ext. intros i _. rewrite fmap_tabulate.
  apply tabulate_ext. intros j _. apply fmap_tabulate.
Qed.

Lemma add_array_tabulate3 n0 n1 n2 a b :
  add_array (tabulate3 n0 n1 n2 a) (tabulate3 n0 n1 n2 b)
  = tabulate3 n0 n1 n2 (λ i j k, a i j k + b i j k).
Proof.
  unfold add_array, tabulate3. rewrite zip_with_tabulate.
  apply tabulate_ext. intros i _. rewrite zip_with_tabulate.
  apply tabulate_ext. intros j _. apply zip_with_tabulate.
Qed.

End Arrays.

(** ** Running computations *)

Section Running.

Lemma run_bind {A B} (m : M A) (f : A → M B) st a st' :
  m st = Ok (a, st') → (m ≫= f) st = f a st'.
Proof. intros H. unfold mbind, M_bind. rewrite H. reflexivity. Qed.

Lemma run_bind_raise {A B} (m : M A) (f : A → M B) st e :
  m st = Raise e → (m ≫= f) st = Raise e.
Proof. intros H. unfold mbind, M_bind. rewrite H. reflexivity. Qed.

Lemma run_ret {A} (a : A) st : (mret a : M A) st = Ok (a, st).
Proof. reflexivity. Qed.

Lemma run_load r st a : store st !! r = Some a → load r st = Ok (a, st).
Proof. intros H. unfold load. rewrite H. reflexivity. Qed.

Lemma run_modify r f st a :
  store st !! r = Some a → modify r f st = Ok (tt, set_obj r (f a) st).
Proof. intros H. unfold modify. rewrite H. reflexivity. Qed.

Lemma set_obj_same r a st : store st !! r = Some a → set_obj r a st = st.
Proof.
  intros H. destruct st as [s g]. unfold set_obj. simpl in *.
  rewrite list_insert_id by exact H. reflexivity.
Qed.

Lemma set_obj_twice r a b st : set_obj r a (set_obj r b st) = set_obj r a st.
Proof. unfold set_obj. simpl. rewrite list_insert_insert_eq. reflexivity. Qed.

Lemma store_set_obj r a st b :
  store st !! r = Some b → store (set_obj r a st) !! r = Some a.
Proof. intros H. simpl. apply list_lookup_insert_eq. eapply lookup_lt_Some, H. Qed.

Lemma store_set_obj_ne r r' a st :
  r ≠ r' → store (set_obj r a st) !! r' = store st !! r'.
Proof. intros H. simpl. apply list_lookup_insert_ne, H. Qed.

Lemma rng_set_obj r a st : rng (set_obj r a st) = rng st.
Proof. reflexivity. Qed.

Lemma run_getitem_ r x st g v :
  store st !! r = Some g → getitem g x = Some v → getitem_ r x st = Ok (v, st).
Proof.
  intros Hr Hx. unfold getitem_. rewrite (run_bind _ _ _ _ _ (run_load _ _ _ Hr)).
  rewrite Hx. reflexivity.
Qed.

Lemma run_setitem_ r x v st g :
  store st !! r = Some g → is_Some (getitem g x) →
  setitem_ r x v st = Ok (tt, set_obj r (setitem g x v) st).
Proof.
  intros Hr Hx. unfold setitem_. rewrite (run_bind _ _ _ _ _ (run_load _ _ _ Hr)).
  rewrite decide_True by exact Hx.
  exact (run_modify r (λ g, setitem g x v) st g Hr).
Qed.

Lemma run_additem_ r x v st g :
  store st !! r = Some g → is_Some (getitem g x) →
  additem_ r x v st = Ok (tt, set_obj r (additem g x v) st).
Proof.
  intros Hr Hx. unfold additem_. rewrite (run_bind _ _ _ _ _ (run_load _ _ _ Hr)).
  rewrite decide_True by exact Hx.
  exact (run_modify r (λ g, additem g x v) st g Hr).
Qed.

Lemma run_py_truediv x y st : y ≠ 0 → py_truediv x y st = Ok (x / y, st).
Proof.
  intros H. unfold py_truediv. destruct (Req_dec_T y 0); [contradiction | reflexivity].
Qed.

(** A loop whose body only updates the array object [r], by [F x] at the
    element [x], updates it by the fold of [F] over the list. *)
Lemma for_fold {A} (r : ref) (J : state → Prop) (Inv : ndarray → Prop)
    (F : A → ndarray → ndarray) (l : list A) (body : A → M unit) :
  (∀ st a, J st → J (set_obj r a st)) →
  (∀ x g, x ∈ l → Inv g → Inv (F x g)) →
  (∀ x st g, x ∈ l → J st → store st !! r = Some g → Inv g →
     body x st = Ok (tt, set_obj r (F x g) st)) →
  ∀ st g, J st → store st !! r = Some g → Inv g →
    for_ l body st = Ok (tt, set_obj r (foldl (λ g x, F x g) g l) st).
Proof.
  intros HJ. induction l as [|x l IH]; intros HInv Hbody st g Hst Hr Hg.
  - simpl. rewrite set_obj_same by exact Hr. reflexivity.
  - simpl. rewrite (run_bind _ _ _ _ _ (Hbody x st g ltac:(left) Hst Hr Hg)).
    rewrite (IH ltac:(intros; apply HInv; [right|]; assumption)
                ltac:(intros; apply Hbody; [right| | |]; assumption)
                (set_obj r (F x g) st) (F x g)).
    + rewrite set_obj_twice. reflexivity.
    + apply HJ, Hst.
    + eapply store_set_obj, Hr.
    + apply HInv; [left | exact Hg].
Qed.

Lemma foldl_inv {A B} (P : B → Prop) (f : B → A → B) (l : list A) b :
  (∀ x b, x ∈ l → P b → P (f b x)) → P b → P (foldl f b l).
Proof.
  revert b. induction l as [|x l IH]; intros b Hf Hb; simpl; [exact Hb|].
  apply IH; [intros; apply Hf; [right|]; assumption|].
  apply Hf; [left | exact Hb].
Qed.

(** A loop over [0 .. n-1] with an invariant on the state. *)
Lemma for_seq_inv (I : nat → state → Prop) (body : nat → M unit) n :
  (∀ s st, (s < n)%nat → I s st → ∃ st', body s st = Ok (tt, st') ∧ I (S s) st') →
  ∀ st, I 0%nat st → ∃ st', for_ (seq 0 n) body st = Ok (tt, st') ∧ I n st'.
Proof.
  intros Hbody.
  assert (Hgen : ∀ m a st, (a + m = n)%nat → I a st →
            ∃ st', for_ (seq a m) body st = Ok (tt, st') ∧ I n st').
  { induction m as [|m IH]; intros a st Ham Ha.
    - exists st. simpl. replace n with a by lia. split; [reflexivity | exact Ha].
    - destruct (Hbody a st ltac:(lia) Ha) as (st1 & Hrun & H1).
      destruct (IH (S a) st1 ltac:(lia) H1) as (st2 & Hrun2 & H2).
      exists st2. split; [|exact H2]. simpl.
      rewrite (run_bind _ _ _ _ _ Hrun). exact Hrun2. }
  intros st H0. apply Hgen; [lia | exact H0].
Qed.

End Running.

(** ** The Stretch Transform *)

Section Stretch.

(** [int(i / k)] on floats is the integer quotient. *)
Lemma py_int_floor_div (i k : nat) :
  (0 < k)%nat → Z.to_nat (py_int (INR i / INR k)) = (i / k)%nat.
Proof.
  intros Hk.
  assert (HkR : 0 < INR k) by (apply lt_0_INR; exact Hk).
  assert (Hi : 0 <= INR i) by apply pos_INR.
  assert (Hq : 0 <= INR i / INR k).
  { apply Rmult_le_pos; [exact Hi|]. left. apply Rinv_0_lt_compat, HkR. }
  unfold py_int. destruct (Rle_dec 0 (INR i / INR k)) as [_ | Hn]; [|contradiction].
  rewrite (Zfloor_eq (Z.of_nat (i / k))); [apply Nat2Z.id|].
  rewrite <- INR_IZR_INZ.
  pose proof (Nat.div_mod_eq i k) as Hdm.
  pose proof (Nat.mod_upper_bound i k ltac:(lia)) as Hr.
  assert (Hi' : INR i = INR k * INR (i / k) + INR (i mod k)).
  { rewrite <- mult_INR, <- plus_INR. f_equal. exact Hdm. }
  assert (Hr0 : 0 <= INR (i mod k)) by apply pos_INR.
  assert (Hr1 : INR (i mod k) < INR k) by (apply lt_INR; exact Hr).
  replace (INR i / INR k) with (INR (i / k) + INR (i mod k) / INR k)
    by (rewrite Hi'; field; lra).
  assert (0 <= INR (i mod k) / INR k < 1).
  { split.
    - apply Rmult_le_pos; [exact Hr0|]. left. apply Rinv_0_lt_compat, HkR.
    - apply Rmult_lt_reg_r with (INR k); [exact HkR|].
      unfold Rdiv. rewrite Rmult_assoc, Rinv_l by lra. lra. }
  lra.
Qed.

Lemma scale_is_factor (N k : nat) :
  (0 < N)%nat → IZR (Z.of_nat (N * k)) / IZR (Z.of_nat N) = INR k.
Proof.
  intros HN. rewrite <- !INR_IZR_INZ, mult_INR. field. apply not_0_INR. lia.
Qed.

Lemma run_py_pow (k p : Z) st :
  (0 < k)%Z → py_pow k p st = Ok (powerRZ (IZR k) p, st) ∧ 0 < powerRZ (IZR k) p.
Proof.
  intros Hk. split; [|apply powerRZ_lt, IZR_lt; exact Hk].
  unfold py_pow. destruct (decide (0 <= p)%Z) as [Hp | Hp].
  - rewrite <- (Z2Nat.id p) at 1 2 by exact Hp.
    rewrite <- pow_IZR, <- pow_powerRZ. reflexivity.
  - rewrite decide_False by lia.
    replace p with (- (- p))%Z at 2 by lia.
    rewrite powerRZ_neg'.
    rewrite <- (Z2Nat.id (- p)) at 1 2 by lia.
    rewrite <- pow_IZR, <- pow_powerRZ. reflexivity.
Qed.

Lemma py_range_0 (n : nat) : py_range 0 (Z.of_nat n) = seq 0 n.
Proof. unfold py_range. rewrite Z.sub_0_r, Nat2Z.id. reflexivity. Qed.

Lemma div_in_range (i N k : nat) : (0 < k)%nat → (i < N * k)%nat → (i / k < N)%nat.
Proof. intros Hk Hi. apply Nat.Div0.div_lt_upper_bound. lia. Qed.

(** The three nested loops fill the new array with the stretched field. *)
Lemma inflation_stretch_loop (grid new_grid : nat) g z (N k : nat) (dil : R) st :
  (0 < k)%nat → grid ≠ new_grid →
  store st !! grid = Some g → cubic N g →
  store st !! new_grid = Some z → cubic (N * k) z →
  for_ (seq 0 (N * k)) (λ i,
    q ← py_truediv (INR i) (INR k);
    let old_i := Z.to_nat (py_int q) in
    for_ (seq 0 (N * k)) (λ j,
      q ← py_truediv (INR j) (INR k);
      let old_j := Z.to_nat (py_int q) in
      for_ (seq 0 (N * k)) (λ l,
        q ← py_truediv (INR l) (INR k);
        let old_k := Z.to_nat (py_int q) in
        v ← getitem_ grid (old_i, old_j, old_k);
        setitem_ new_grid (i, j, l) (v * dil)))) st
  = Ok (tt, set_obj new_grid (stretched g N k dil) st).
Proof.
  intros Hk Hne Hg Hcub Hz Hzc.
  assert (HkR : INR k ≠ 0) by (apply not_0_INR; lia).
  set (cellv := λ x : index,
        default 0 (getitem g (x.1.1 / k, x.1.2 / k, x.2 / k)%nat) * dil).
  set (J := λ st : state, store st !! grid = Some g).
  set (Inv := λ z : ndarray, cubic (N * k) z).
  assert (HJ : ∀ st a, J st → J (set_obj new_grid a st)).
  { intros st' a HJ. unfold J. rewrite store_set_obj_ne by congruence. exact HJ. }
  assert (HInv3 : ∀ x z, Inv z → Inv (setitem z x (cellv x))).
  { intros x z' Hz'. apply has_shape_setitem, Hz'. }
  rewrite (for_fold new_grid J Inv
             (λ i z, foldl (λ z j, foldl (λ z l, setitem z (i, j, l) (cellv (i, j, l)))
                                    z (seq 0 (N * k))) z (seq 0 (N * k)))
             _ _ HJ) with (g := z); [| | |exact Hg|exact Hz|exact Hzc].
  - f_equal. f_equal. f_equal.
    rewrite (foldl_cells3 (λ x z, setitem z x (cellv x))).
    apply array_eq_tabulate.
    + apply (foldl_inv Inv); [|exact Hzc]. intros x b _ Hb. apply HInv3, Hb.
    + intros i j l Hi Hj Hl. rewrite getitem_foldl_setitem.
      rewrite decide_True
        by (apply elem_of_cells3; rewrite !elem_of_seq; lia).
      destruct (getitem_in_range _ _ _ z i j l Hzc Hi Hj Hl) as [v ->]. reflexivity.
  - intros i z1 _ Hz1. apply (foldl_inv Inv); [|exact Hz1].
    intros j z2 _ Hz2. apply (foldl_inv Inv); [|exact Hz2].
    intros l z3 _ Hz3. apply HInv3, Hz3.
  - intros i st1 z1 Hi HJ1 Hz1 HI1. apply elem_of_seq in Hi.
    rewrite (run_bind _ _ _ _ _ (run_py_truediv _ _ _ HkR)). cbv zeta.
    rewrite py_int_floor_div by exact Hk.
    apply (for_fold new_grid J Inv
             (λ j z, foldl (λ z l, setitem z (i, j, l) (cellv (i, j, l))) z (seq 0 (N * k)))
             _ _ HJ); [|  |exact HJ1|exact Hz1|exact HI1].
    + intros j z2 _ Hz2. apply (foldl_inv Inv); [|exact Hz2].
      intros l z3 _ Hz3. apply HInv3, Hz3.
    + intros j st2 z2 Hj HJ2 Hz2 HI2. apply elem_of_seq in Hj.
      rewrite (run_bind _ _ _ _ _ (run_py_truediv _ _ _ HkR)). cbv zeta.
      rewrite py_int_floor_div by exact Hk.
      apply (for_fold new_grid J Inv
               (λ l z, setitem z (i, j, l) (cellv (i, j, l))) _ _ HJ);
        [|  |exact HJ2|exact Hz2|exact HI2].
      * intros l z3 _ Hz3. apply HInv3, Hz3.
      * intros l st3 z3 Hl HJ3 Hz3 HI3. apply elem_of_seq in Hl.
        rewrite (run_bind _ _ _ _ _ (run_py_truediv _ _ _ HkR)). cbv zeta.
        rewrite py_int_floor_div by exact Hk.
        destruct (getitem_in_range _ _ _ g (i / k) (j / k) (l / k) Hcub)%nat
          as [v Hv]; [apply div_in_range; lia ..|].
        rewrite (run_bind _ _ _ _ _ (run_getitem_ _ _ _ _ _ HJ3 Hv)).
        rewrite (run_setitem_ _ _ _ _ _ Hz3)
          by (apply (getitem_in_range _ _ _ _ _ _ _ HI3); lia).
        unfold cellv. cbn [fst snd]. rewrite Hv. reflexivity.
Qed.

Lemma run_np_zeros (n : nat) st :
  np_zeros (Z.of_nat n) st =
    Ok (length (store st), State (store st ++ [zeros n n n]) (rng st)).
Proof.
  unfold np_zeros. rewrite decide_False by lia. rewrite Nat2Z.id. reflexivity.
Qed.

Lemma set_obj_new (s : list ndarray) a b f :
  set_obj (length s) a (State (s ++ [b]) f) = State (s ++ [a]) f.
Proof.
  unfold set_obj. simpl. f_equal.
  rewrite insert_app_r_alt by lia. rewrite Nat.sub_diag. reflexivity.
Qed.

(** A call of [inflation_stretch] on a field of side [N > 0] with a positive
    factor creates one new array object, the stretched field, and leaves
    every existing object and the random source as they were. *)
Lemma inflation_stretch_run st grid g (N : nat) (k p : Z) :
  store st !! grid = Some g → cubic N g → (0 < N)%nat → (0 < k)%Z →
  inflation_stretch grid k p st =
    Ok (length (store st),
        State (store st ++ [stretched g N (Z.to_nat k) (dilution_factor k p)]) (rng st)).
Proof.
  intros Hg Hcub HN Hk. unfold inflation_stretch.
  rewrite (run_bind _ _ _ _ _ (run_load _ _ _ Hg)). cbv zeta.
  destruct Hcub as [Hlen Hall]. rewrite Hlen.
  assert (Hnew : (Z.of_nat N * k)%Z = Z.of_nat (N * Z.to_nat k)).
  { rewrite Nat2Z.inj_mul, Z2Nat.id by lia. reflexivity. }
  rewrite Hnew.
  rewrite (run_bind _ _ _ _ _ (run_np_zeros _ _)).
  assert (HNz : IZR (Z.of_nat N) ≠ 0) by (apply not_0_IZR; lia).
  rewrite (run_bind _ _ _ _ _ (run_py_truediv _ _ _ HNz)).
  rewrite scale_is_factor by assumption.
  destruct (run_py_pow k p (State (store st ++ [zeros (N * Z.to_nat k) (N * Z.to_nat k)
             (N * Z.to_nat k)]) (rng st)) Hk) as [Hpow Hpos].
  rewrite (run_bind _ _ _ _ _ Hpow).
  assert (Hpnz : powerRZ (IZR k) p ≠ 0) by lra.
  rewrite (run_bind _ _ _ _ _ (run_py_truediv _ _ _ Hpnz)).
  rewrite py_range_0.
  erewrite run_bind; [|apply (inflation_stretch_loop grid (length (store st)) g
                          (zeros (N * Z.to_nat k) (N * Z.to_nat k) (N * Z.to_nat k)) N)].
  - rewrite set_obj_new. reflexivity.
  - lia.
  - apply lookup_lt_Some in Hg. lia.
  - simpl. rewrite lookup_app_l by (eapply lookup_lt_Some, Hg). exact Hg.
  - split; assumption.
  - simpl. rewrite lookup_app_r by lia. rewrite Nat.sub_diag. reflexivity.
  - apply has_shape_tabulate3.
Qed.

Lemma cubic_stretched g n k dil : cubic (n * k) (stretched g n k dil).
Proof. apply has_shape_tabulate3. Qed.

Lemma getitem_stretched g n k dil i j l :
  cubic n g → (0 < k)%nat →
  (i < n * k)%nat → (j < n * k)%nat → (l < n * k)%nat →
  getitem (stretched g n k dil) (i, j, l) =
    (λ v, v * dil) <$> getitem g (i / k, j / k, l / k)%nat.
Proof.
  intros Hg Hk Hi Hj Hl. unfold stretched.
  rewrite getitem_tabulate3 by assumption.
  destruct (getitem_in_range _ _ _ g (i / k) (j / k) (l / k) Hg)%nat as [v ->];
    [apply div_in_range; assumption ..|]. reflexivity.
Qed.

Lemma dilution_factor_1 p : dilution_factor 1 p = 1.
Proof. unfold dilution_factor. rewrite powerRZ_R1. lra. Qed.

Lemma stretched_by_1 g n p : cubic n g → stretched g n 1 (dilution_factor 1 p) = g.
Proof.
  intros Hg. symmetry. unfold stretched. rewrite Nat.mul_1_r.
  apply array_eq_tabulate; [exact Hg|]. intros i j l Hi Hj Hl.
  rewrite !Nat.div_1_r, dilution_factor_1.
  destruct (getitem_in_range _ _ _ g i j l Hg Hi Hj Hl) as [v ->]. simpl.
  f_equal. lra.
Qed.

(** An empty field cannot be stretched: [new_size / old_size] is 0/0. *)
Lemma inflation_stretch_empty st grid (k p : Z) :
  store st !! grid = Some [] → (0 <= k)%Z →
  inflation_stretch grid k p st = Raise ZeroDivisionError.
Proof.
  intros Hg Hk. unfold inflation_stretch.
  rewrite (run_bind _ _ _ _ _ (run_load _ _ _ Hg)). cbv zeta.
  change (Z.of_nat (length (@nil (list (list R))))) with 0%Z. rewrite Z.mul_0_l.
  rewrite (run_bind _ _ _ _ _ (run_np_zeros 0 _)).
  apply run_bind_raise. unfold py_truediv.
  destruct (Req_dec_T 0 0); [reflexivity | contradiction].
Qed.

(** C2. On a field of side [N >= 1], with a positive integer factor [k] and
    an integer power [p] for which [k^|p|] stays inside the range of float64,
    [inflation_stretch] returns a new array object: a field of side exactly
    [N * k] whose cell [(i, j, l)] is the cell
    [(floor(i/k), floor(j/k), floor(l/k))] of the input times [1 / k^p]; for
    [k = 1] it equals the input cell for cell. *)
Theorem inflation_stretch_cells st grid g (N : nat) (k p : Z) :
  store st !! grid = Some g → cubic N g → (0 < N)%nat → (0 < k)%Z →
  in_float_range k p →
  ∃ out st',
    inflation_stretch grid k p st = Ok (length (store st), st') ∧
    store st' !! length (store st) = Some out ∧
    cubic (N * Z.to_nat k) out ∧
    (∀ i j l, (i < N * Z.to_nat k)%nat → (j < N * Z.to_nat k)%nat →
              (l < N * Z.to_nat k)%nat →
       getitem out (i, j, l) =
         (λ v, v * dilution_factor k p) <$>
           getitem g (i / Z.to_nat k, j / Z.to_nat k, l / Z.to_nat k)%nat) ∧
    (k = 1%Z → out = g).
Proof.
  intros Hg Hcub HN Hk _. eexists _, _.
  split; [apply (inflation_stretch_run st grid g N k p); assumption|].
  split; [simpl; rewrite lookup_app_r by lia; rewrite Nat.sub_diag; reflexivity|].
  split; [apply cubic_stretched|]. split.
  - intros i j l Hi Hj Hl. apply getitem_stretched; [assumption | lia | assumption ..].
  - intros ->. apply stretched_by_1, Hcub.
Qed.

(** A field of side 1 stretched by 2, and by 1, with dilution power 3. *)
Lemma inflation_stretch_cells_witness :
  in_float_range 2 3 ∧
  (∃ out st',
    inflation_stretch 0%nat 2 3 (State [ [[[8]]] ] (λ _, 0)) = Ok (1%nat, st') ∧
    store st' !! 1%nat = Some out ∧
    cubic 2 out ∧
    (∀ i j l, (i < 2)%nat → (j < 2)%nat → (l < 2)%nat →
       getitem out (i, j, l) =
         (λ v, v * dilution_factor 2 3) <$> getitem [[[8]]] (i / 2, j / 2, l / 2)%nat)) ∧
  in_float_range 1 3 ∧
  (∃ st',
    inflation_stretch 0%nat 1 3 (State [ [[[8]]] ] (λ _, 0)) = Ok (1%nat, st') ∧
    store st' !! 1%nat = Some [[[8]]]).
Proof.
  assert (Hg : store (State [ [[[8]]] ] (λ _, 0)) !! 0%nat = Some [[[8]]]) by reflexivity.
  assert (Hcubic : cubic 1 [[[8]]]) by (split; [reflexivity | repeat constructor]).
  assert (Hrange2 : in_float_range 2 3) by reflexivity.
  assert (Hrange1 : in_float_range 1 3) by reflexivity.
  split; [exact Hrange2|]. split; [|split; [exact Hrange1|]].
  - destruct (inflation_stretch_cells (State [ [[[8]]] ] (λ _, 0)) 0%nat [[[8]]] 1%nat 2 3
                Hg Hcubic ltac:(lia) ltac:(lia) Hrange2)
      as (out & st' & Hrun & Hout & Hshape & Hcells & _).
    exists out, st'. split; [exact Hrun|]. split; [exact Hout|].
    split; [exact Hshape | exact Hcells].
  - destruct (inflation_stretch_cells (State [ [[[8]]] ] (λ _, 0)) 0%nat [[[8]]] 1%nat 1 3
                Hg Hcubic ltac:(lia) ltac:(lia) Hrange1)
      as (out & st' & Hrun & Hout & _ & _ & Hsame).
    exists st'. rewrite (Hsame eq_refl) in Hout. split; [exact Hrun | exact Hout].
Defined.

(** Outside this domain the call does not return a field: an empty field
    raises [ZeroDivisionError] at [new_size / old_size] (in both
    embeddings), and for the factor 2 and the power 1024 the int [2 ** 1024]
    has no float64 value and [1.0 / (2 ** 1024)] raises [OverflowError]. *)
Lemma inflation_stretch_outside_domain :
  inflation_stretch 0%nat 4 3 (State [ [] ] (λ _, 0)) = Raise ZeroDivisionError ∧
  Binary64.inflation_stretch [] 4 3 = Binary64.Raises Binary64.ZeroDivisionError ∧
  Binary64.inflation_stretch [[[1%float]]] 2 1024 = Binary64.Raises Binary64.OverflowError.
Proof.
  split; [apply inflation_stretch_empty; [reflexivity | lia]|].
  vm_compute. auto.
Qed.

(** The positions that read the input cell [(a, b, c)] are the [k^3]
    positions of the block [[a k, a k + k) x [b k, b k + k) x [c k, c k + k)]. *)
Lemma block_positions (n k a b c : nat) :
  (0 < k)%nat → (a < n)%nat → (b < n)%nat → (c < n)%nat →
  block n k a b c ≡ₚ cells3 (seq (a * k) k) (seq (b * k) k) (seq (c * k) k).
Proof.
  intros Hk Ha Hb Hc. unfold block. apply NoDup_Permutation.
  - apply NoDup_filter, NoDup_cells3; apply NoDup_seq.
  - apply NoDup_cells3; apply NoDup_seq.
  - intros [[i j] l]. rewrite list_elem_of_filter, !elem_of_cells3, !elem_of_seq.
    cbn [fst snd]. split.
    + intros ((Hi & Hj & Hl) & Hi' & Hj' & Hl'). subst a b c.
      pose proof (Nat.Div0.mul_div_le i k). pose proof (Nat.Div0.mul_div_le j k).
      pose proof (Nat.Div0.mul_div_le l k).
      pose proof (Nat.mul_succ_div_gt i k ltac:(lia)).
      pose proof (Nat.mul_succ_div_gt j k ltac:(lia)).
      pose proof (Nat.mul_succ_div_gt l k ltac:(lia)). nia.
    + intros (Hi & Hj & Hl).
      assert (Hq : ∀ x q, (q < n)%nat → (q * k <= x < q * k + k)%nat →
                     (x / k)%nat = q ∧ (0 <= x < 0 + n * k)%nat).
      { intros x q Hqn Hx. split; [|nia]. symmetry.
        apply (Nat.div_unique x k q (x - q * k)); lia. }
      destruct (Hq i a Ha Hi), (Hq j b Hb Hj), (Hq l c Hc Hl). auto.
Qed.

Lemma length_block (n k a b c : nat) :
  (0 < k)%nat → (a < n)%nat → (b < n)%nat → (c < n)%nat →
  length (block n k a b c) = (k * k * k)%nat.
Proof.
  intros Hk Ha Hb Hc. rewrite (block_positions n k a b c Hk Ha Hb Hc).
  rewrite length_cells3, !length_seq. reflexivity.
Qed.

Lemma elem_of_block (n k a b c : nat) (x : index) :
  x ∈ block n k a b c ↔
    ((x.1.1 / k)%nat = a ∧ (x.1.2 / k)%nat = b ∧ (x.2 / k)%nat = c) ∧
    (x.1.1 < n * k)%nat ∧ (x.1.2 < n * k)%nat ∧ (x.2 < n * k)%nat.
Proof.
  unfold block. destruct x as [[i j] l].
  rewrite list_elem_of_filter, elem_of_cells3, !elem_of_seq. cbn [fst snd]. 
  split; intros (H1 & H2 & H3 & H4); (split; [exact H1|]); lia.
Qed.

(** C3. The stretched field consists of one block of exactly [k^3] cells
    for each cell of the input, and every cell of the block holds the input
    cell times the dilution [1 / k^p]; for [k = 1] the sum of its cells is
    [(1 / k^p) * k^3] times the sum of the cells of the input. *)
Theorem inflation_stretch_sum st grid g (N : nat) (k p : Z) :
  store st !! grid = Some g → cubic N g → (0 < N)%nat → (0 < k)%Z →
  in_float_range k p →
  ∃ out st',
    inflation_stretch grid k p st = Ok (length (store st), st') ∧
    store st' !! length (store st) = Some out ∧
    (∀ a b c v, getitem g (a, b, c) = Some v →
       length (block N (Z.to_nat k) a b c) = (Z.to_nat k * Z.to_nat k * Z.to_nat k)%nat ∧
       ∀ x, x ∈ block N (Z.to_nat k) a b c →
         getitem out x = Some (v * dilution_factor k p)) ∧
    (k = 1%Z → np_sum out = dilution_factor k p * IZR k ^ 3 * np_sum g).
Proof.
  intros Hg Hcub HN Hk _. eexists _, _.
  split; [apply (inflation_stretch_run st grid g N k p); assumption|].
  split; [simpl; rewrite lookup_app_r by lia; rewrite Nat.sub_diag; reflexivity|].
  split.
  - intros a b c v Hv.
    destruct (getitem_out_of_range N N N g a b c Hcub (mk_is_Some _ _ Hv)) as (Ha & Hb & Hc).
    split; [apply length_block; lia|].
    intros [[i j] l] Hx. apply elem_of_block in Hx as ((Hi & Hj & Hl) & Hi' & Hj' & Hl').
    cbn [fst snd] in *.
    rewrite getitem_stretched by (assumption || lia).
    rewrite Hi, Hj, Hl, Hv. reflexivity.
  - intros ->. change (Z.to_nat 1) with 1%nat.
    rewrite (stretched_by_1 g N p Hcub), dilution_factor_1. simpl. lra.
Qed.

(** A field of side 1 stretched by 2 with dilution power 3: one block of 8
    cells; and stretched by 1: the same sum. *)
Lemma inflation_stretch_sum_witness :
  in_float_range 2 3 ∧
  (∃ out st',
    inflation_stretch 0%nat 2 3 (State [ [[[8]]] ] (λ _, 0)) = Ok (1%nat, st') ∧
    store st' !! 1%nat = Some out ∧
    (∀ a b c v, getitem [[[8]]] (a, b, c) = Some v →
       length (block 1 2 a b c) = 8%nat ∧
       ∀ x, x ∈ block 1 2 a b c → getitem out x = Some (v * dilution_factor 2 3))) ∧
  in_float_range 1 3 ∧
  (∃ out st',
    inflation_stretch 0%nat 1 3 (State [ [[[8]]] ] (λ _, 0)) = Ok (1%nat, st') ∧
    store st' !! 1%nat = Some out ∧
    np_sum out = dilution_factor 1 3 * 1 ^ 3 * np_sum [[[8]]]).
Proof.
  assert (Hg : store (State [ [[[8]]] ] (λ _, 0)) !! 0%nat = Some [[[8]]]) by reflexivity.
  assert (Hcubic : cubic 1 [[[8]]]) by (split; [reflexivity | repeat constructor]).
  assert (Hrange2 : in_float_range 2 3) by reflexivity.
  assert (Hrange1 : in_float_range 1 3) by reflexivity.
  split; [exact Hrange2|]. split; [|split; [exact Hrange1|]].
  - destruct (inflation_stretch_sum (State [ [[[8]]] ] (λ _, 0)) 0%nat [[[8]]] 1%nat 2 3
                Hg Hcubic ltac:(lia) ltac:(lia) Hrange2)
      as (out & st' & Hrun & Hout & Hblocks & _).
    exists out, st'. split; [exact Hrun|]. split; [exact Hout | exact Hblocks].
  - destruct (inflation_stretch_sum (State [ [[[8]]] ] (λ _, 0)) 0%nat [[[8]]] 1%nat 1 3
                Hg Hcubic ltac:(lia) ltac:(lia) Hrange1)
      as (out & st' & Hrun & Hout & _ & Hsum).
    exists out, st'. split; [exact Hrun|]. split; [exact Hout|]. exact (Hsum eq_refl).
Defined.

(** However the numbers of a list of zeros are added up, the sum is a zero. *)
Lemma sums_to_zeros l s :
  Binary64.sums_to l s → Forall (λ c, c = 0%float ∨ c = (-0)%float) l →
  s = 0%float ∨ s = (-0)%float.
Proof.
  induction 1 as [| |x|l1 l2 s1 s2 _ IH1 _ IH2|l l' s Hp _ IH]; intros Hall.
  - left; reflexivity.
  - right; reflexivity.
  - apply Forall_inv in Hall. exact Hall.
  - apply Forall_app in Hall as [H1 H2].
    destruct (IH1 H1) as [-> | ->], (IH2 H2) as [-> | ->]; vm_compute; auto.
  - apply IH. rewrite Hp. exact Hall.
Qed.

(** The sum is not conserved on binary64 numbers.  The field of side 1
    whose cell is 2^-1074, the smallest positive float64, stretched with the
    default factor 4 and power 3: every product of the cell and the dilution
    1/64 rounds to zero, so the 64 cells of the result are 0 and their sum,
    in whatever order [np.sum] adds them, is 0; the sum of the input is
    2^-1074 and [(1 / 4^3) * 4^3] times that sum is 2^-1074, not 0. *)
Lemma inflation_stretch_sum_not_conserved :
  ∃ out,
    Binary64.inflation_stretch [[[0x1p-1074%float]]] 4 3 = Binary64.Returns out ∧
    length (concat (concat out)) = 64%nat ∧
    (∀ s, Binary64.np_sum out s → s = 0%float ∨ s = (-0)%float) ∧
    Binary64.np_sum [[[0x1p-1074%float]]] 0x1p-1074 ∧
    (1 / 64 * 64 * 0x1p-1074 = 0x1p-1074)%float ∧
    (1 / 64 * (64 * 0x1p-1074) = 0x1p-1074)%float ∧
    is_zero 0x1p-1074 = false.
Proof.
  exists (replicate 4 (replicate 4 (replicate 4 0%float))).
  split; [vm_compute; reflexivity|]. split; [reflexivity|]. split.
  - intros s Hs. apply (sums_to_zeros _ _ Hs).
    cbn. repeat constructor.
  - split; [apply Binary64.sums_one|]. vm_compute. auto.
Qed.

End Stretch.

(** ** The Oscillation Transform *)

Section Oscillation.

Variables (epsilon omega delta : R).

Lemma cubic_oscillation_step n draws s g :
  cubic n (oscillation_step n epsilon omega delta draws s g).
Proof. apply has_shape_tabulate3. Qed.

Lemma cubic_oscillated n draws g m :
  cubic n g → cubic n (oscillated n epsilon omega delta draws g m).
Proof. intros Hg. destruct m; [exact Hg | apply cubic_oscillation_step]. Qed.

(** The two in-place updates of one step, on values. *)
Lemma oscillation_step_code n draws s g (noise : nat → nat → nat → R) :
  cubic n g →
  (∀ i j k, (i < n)%nat → (j < n)%nat → (k < n)%nat →
     noise i j k = draws (s * (n * n * n) + ((i * n + j) * n + k))%nat) →
  add_array (scale_array g (1 + epsilon * cos (omega * (INR s * 0.1))))
            (scalar_times (delta * sin (omega * (INR s * 0.1))) (tabulate3 n n n noise))
  = oscillation_step n epsilon omega delta draws s g.
Proof.
  intros Hg Hnoise. unfold scale_array, scalar_times, oscillation_step.
  rewrite (has_shape_as_tabulate3 n n n g Hg) at 1.
  rewrite !map3_tabulate3, add_array_tabulate3.
  apply tabulate3_ext. intros i j k Hi Hj Hk.
  rewrite Hnoise by assumption. reflexivity.
Qed.

(** One iteration of the loop of [reheating_oscillations]. *)
Lemma reheating_step_run (grid : nat) n draws s g st :
  store st !! grid = Some g → cubic n g →
  (∀ m, rng st m = draws (s * (n * n * n) + m)%nat) →
  ∃ st',
    (g ← load grid;
     noise ← np_random_normal (shape g);
     modify grid (λ g, scale_array g (1 + epsilon * cos (omega * (INR s * 0.1))));;
     modify grid (λ g, add_array g
       (scalar_times (delta * sin (omega * (INR s * 0.1))) noise))) st = Ok (tt, st') ∧
    store st' = <[grid := oscillation_step n epsilon omega delta draws s g]> (store st) ∧
    (∀ m, rng st' m = draws (S s * (n * n * n) + m)%nat).
Proof.
  intros Hgrid Hg Hrng.
  rewrite (run_bind _ _ _ _ _ (run_load _ _ _ Hgrid)).
  rewrite (shape_cubic n g Hg).
  erewrite run_bind; [|reflexivity].
  erewrite run_bind; [|apply run_modify; exact Hgrid].
  erewrite run_modify; [|eapply store_set_obj; exact Hgrid].
  eexists. split; [reflexivity|]. split.
  - simpl. rewrite list_insert_insert_eq. f_equal.
    apply oscillation_step_code; [exact Hg|].
    intros i j k _ _ _. apply Hrng.
  - intros m. simpl. rewrite Hrng. f_equal. lia.
Qed.

(** The loop as a whole. *)
Lemma reheating_oscillations_run (grid : nat) n g st (num_steps : nat) :
  store st !! grid = Some g → cubic n g →
  ∃ st',
    reheating_oscillations grid num_steps epsilon omega delta st = Ok (grid, st') ∧
    store st' = <[grid := oscillated n epsilon omega delta (rng st) g num_steps]> (store st) ∧
    (∀ m, rng st' m = rng st (num_steps * (n * n * n) + m)%nat).
Proof.
  intros Hgrid Hg. unfold reheating_oscillations.
  rewrite (run_bind _ _ _ _ _ (run_load _ _ _ Hgrid)). cbv zeta.
  destruct (for_seq_inv
    (λ s st', store st' = <[grid := oscillated n epsilon omega delta (rng st) g s]> (store st) ∧
              (∀ m, rng st' m = rng st (s * (n * n * n) + m)%nat))
    (λ step,
       let t := INR step * 0.1 in
       let amp := 1 + epsilon * cos (omega * t) in
       g ← load grid;
       noise ← np_random_normal (shape g);
       let inj := scalar_times (delta * sin (omega * t)) noise in
       modify grid (λ g, scale_array g amp);;
       modify grid (λ g, add_array g inj))
    num_steps) with (st := st) as (st' & Hrun & Hstore & Hrng).
  - intros s st1 _ [Hstore1 Hrng1]. cbv zeta.
    destruct (reheating_step_run grid n (rng st) s
      (oscillated n epsilon omega delta (rng st) g s) st1) as (st2 & Hrun & Hstore2 & Hrng2).
    + rewrite Hstore1. apply list_lookup_insert_eq. eapply lookup_lt_Some, Hgrid.
    + apply cubic_oscillated, Hg.
    + exact Hrng1.
    + exists st2. split; [exact Hrun|]. split; [|exact Hrng2].
      rewrite Hstore2, Hstore1, list_insert_insert_eq. reflexivity.
  - split; [|intros m; reflexivity]. simpl. symmetry. apply list_insert_id, Hgrid.
  - exists st'. split; [|split; assumption].
    rewrite (run_bind _ _ _ _ _ Hrun). reflexivity.
Qed.

Lemma getitem_oscillation_step n draws s g i j k :
  cubic n g → (i < n)%nat → (j < n)%nat → (k < n)%nat →
  getitem (oscillation_step n epsilon omega delta draws s g) (i, j, k) =
    (λ x, x * (1 + epsilon * cos (omega * (INR s * 0.1)))
          + delta * sin (omega * (INR s * 0.1))
            * draws (s * (n * n * n) + ((i * n + j) * n + k))%nat)
      <$> getitem g (i, j, k).
Proof.
  intros Hg Hi Hj Hk. unfold oscillation_step.
  rewrite getitem_tabulate3 by assumption.
  destruct (getitem_in_range _ _ _ g i j k Hg Hi Hj Hk) as [v ->]. reflexivity.
Qed.

(** Every step and every cell reads its own position of the random source. *)
Lemma draw_positions_distinct (n s s' i j k i' j' k' : nat) :
  (i < n)%nat → (j < n)%nat → (k < n)%nat →
  (i' < n)%nat → (j' < n)%nat → (k' < n)%nat →
  (s * (n * n * n) + ((i * n + j) * n + k) =
   s' * (n * n * n) + ((i' * n + j') * n + k'))%nat →
  s = s' ∧ i = i' ∧ j = j' ∧ k = k'.
Proof.
  intros Hi Hj Hk Hi' Hj' Hk' Heq.
  assert (Hc : ((i * n + j) * n + k < n * n * n)%nat) by nia.
  assert (Hc' : ((i' * n + j') * n + k' < n * n * n)%nat) by nia.
  destruct (Nat.div_mod_unique (n * n * n) s s' _ _ Hc Hc') as [Hs Hr]; [lia|].
  destruct (Nat.div_mod_unique n (i * n + j) (i' * n + j') k k' Hk Hk') as [Hq Hk2]; [lia|].
  destruct (Nat.div_mod_unique n i i' j j' Hj Hj') as [Hi2 Hj2]; [lia|].
  auto.
Qed.

(** C4. [reheating_oscillations] performs [num_steps] updates in sequence on
    the array it is given.  With [field s] the field after [s] steps:
    [field 0] is the input; at the 0-indexed step [s], with [t = s * 0.1],
    every cell is first multiplied by [1 + ε cos(ω t)] and then receives a
    draw of the random source scaled by [δ sin(ω t)], each step and each cell
    reading a position of its own; the call leaves [field num_steps] in the
    array and has consumed [num_steps * n^3] draws; with no step the state is
    unchanged. *)
Theorem reheating_oscillations_steps (grid : nat) n g st (num_steps : nat) :
  store st !! grid = Some g → cubic n g →
  let field := oscillated n epsilon omega delta (rng st) g in
  let position := λ (s : nat) '(i, j, k), (s * (n * n * n) + ((i * n + j) * n + k))%nat in
  field 0%nat = g ∧
  (∀ s i j k, (i < n)%nat → (j < n)%nat → (k < n)%nat →
     getitem (field (S s)) (i, j, k) =
       (λ x, x * (1 + epsilon * cos (omega * (INR s * 0.1)))
             + delta * sin (omega * (INR s * 0.1)) * rng st (position s (i, j, k)))
         <$> getitem (field s) (i, j, k)) ∧
  (∀ s s' i j k i' j' k',
     (i < n)%nat → (j < n)%nat → (k < n)%nat → (i' < n)%nat → (j' < n)%nat → (k' < n)%nat →
     position s (i, j, k) = position s' (i', j', k') →
     s = s' ∧ i = i' ∧ j = j' ∧ k = k') ∧
  (∃ st',
     reheating_oscillations grid num_steps epsilon omega delta st = Ok (grid, st') ∧
     store st' = <[grid := field num_steps]> (store st) ∧
     (∀ m, rng st' m = rng st (num_steps * (n * n * n) + m)%nat)) ∧
  reheating_oscillations grid 0 epsilon omega delta st = Ok (grid, st).
Proof.
  intros Hgrid Hg field position. split; [reflexivity|]. split; [|split; [|split]].
  - intros s i j k Hi Hj Hk. subst field. cbn [oscillated].
    apply getitem_oscillation_step; [apply cubic_oscillated; exact Hg | assumption ..].
  - intros s s' i j k i' j' k'. apply draw_positions_distinct.
  - apply reheating_oscillations_run; assumption.
  - unfold reheating_oscillations.
    rewrite (run_bind _ _ _ _ _ (run_load _ _ _ Hgrid)). reflexivity.
Qed.

Lemma scale_array_as_tabulate3 n g c :
  cubic n g →
  scale_array g c = tabulate3 n n n (λ i j k, default 0 (getitem g (i, j, k)) * c).
Proof.
  intros Hg. unfold scale_array.
  rewrite (has_shape_as_tabulate3 n n n g Hg) at 1. apply map3_tabulate3.
Qed.

Lemma injection_scale_0 : injection_scale delta omega 0 = 0.
Proof.
  unfold injection_scale. simpl. rewrite Rmult_0_l, Rmult_0_r, sin_0. ring.
Qed.

Lemma gain_0 : gain epsilon omega 0 = 1 + epsilon.
Proof. unfold gain. simpl. rewrite Rmult_0_l, Rmult_0_r, cos_0. ring. Qed.

Lemma oscillated_1 n draws g :
  cubic n g → oscillated n epsilon omega delta draws g 1 = scale_array g (1 + epsilon).
Proof.
  intros Hg. rewrite (scale_array_as_tabulate3 n g _ Hg). cbn [oscillated].
  unfold oscillation_step. apply tabulate3_ext. intros i j k _ _ _.
  rewrite injection_scale_0, gain_0. ring.
Qed.

(** C10. The scale of the injection of the first step is [δ sin(ω 0) = 0]:
    a call with one step leaves in the array the input field multiplied by
    [1 + ε], whatever the random source holds. *)
Theorem reheating_first_step_without_injection (grid : nat) n g st :
  store st !! grid = Some g → cubic n g →
  injection_scale delta omega 0 = 0 ∧
  ∃ st',
    reheating_oscillations grid 1 epsilon omega delta st = Ok (grid, st') ∧
    store st' = <[grid := scale_array g (1 + epsilon)]> (store st).
Proof.
  intros Hgrid Hg. split; [apply injection_scale_0|].
  destruct (reheating_oscillations_run grid n g st 1 Hgrid Hg) as (st' & Hrun & Hstore & _).
  exists st'. split; [exact Hrun|].
  rewrite Hstore, (oscillated_1 n (rng st) g Hg). reflexivity.
Qed.

End Oscillation.

(** A field of side 1 and two steps with ε = 1/2, ω = 1, δ = 1. *)
Lemma reheating_oscillations_steps_witness :
  ∃ st',
    reheating_oscillations 0%nat 2 (1/2) 1 1 (State [ [[[8]]] ] (λ _, 1)) = Ok (0%nat, st') ∧
    store st' = <[0%nat := oscillated 1 (1/2) 1 1 (λ _, 1) [[[8]]] 2]> [ [[[8]]] ] ∧
    (∀ m, rng st' m = 1).
Proof.
  apply (reheating_oscillations_steps (1/2) 1 1 0%nat 1%nat [[[8]]]
           (State [ [[[8]]] ] (λ _, 1)) 2).
  - reflexivity.
  - split; [reflexivity|]. repeat constructor.
Defined.

Lemma reheating_first_step_without_injection_witness :
  injection_scale 1 1 0 = 0 ∧
  ∃ st',
    reheating_oscillations 0%nat 1 (1/2) 1 1 (State [ [[[8]]] ] (λ _, 1)) = Ok (0%nat, st') ∧
    store st' = <[0%nat := scale_array [[[8]]] (1 + 1/2)]> [ [[[8]]] ].
Proof.
  apply (reheating_first_step_without_injection (1/2) 1 1 0%nat 1%nat [[[8]]]
           (State [ [[[8]]] ] (λ _, 1))).
  - reflexivity.
  - split; [reflexivity|]. repeat constructor.
Defined.

(** ** Which transform mutates its argument *)

(** C9, as the code has it.  [reheating_oscillations] works in place: it
    returns the reference it was given and the array behind it holds the
    transformed field.  [inflation_stretch] does not: it returns a reference
    to a new array, and the array it was given keeps its values. *)
Theorem transforms_in_place_or_fresh (epsilon omega delta : R) (grid : nat) n g st
    (num_steps : nat) (k p : Z) :
  store st !! grid = Some g → cubic n g → (0 < n)%nat → (0 < k)%Z →
  (∃ st',
     reheating_oscillations grid num_steps epsilon omega delta st = Ok (grid, st') ∧
     store st' !! grid = Some (oscillated n epsilon omega delta (rng st) g num_steps)) ∧
  (∃ new_grid st',
     inflation_stretch grid k p st = Ok (new_grid, st') ∧
     new_grid ≠ grid ∧
     store st' !! grid = Some g ∧
     store st' !! new_grid = Some (stretched g n (Z.to_nat k) (dilution_factor k p))).
Proof.
  intros Hgrid Hg Hn Hk. pose proof (lookup_lt_Some _ _ _ Hgrid) as Hlt. split.
  - destruct (reheating_oscillations_run epsilon omega delta grid n g st num_steps Hgrid Hg)
      as (st' & Hrun & Hstore & _).
    exists st'. split; [exact Hrun|]. rewrite Hstore.
    apply list_lookup_insert_eq, Hlt.
  - eexists _, _. split; [apply (inflation_stretch_run st grid g n k p); assumption|].
    split; [lia|]. simpl. split.
    + rewrite lookup_app_l by exact Hlt. exact Hgrid.
    + rewrite lookup_app_r by lia. rewrite Nat.sub_diag. reflexivity.
Qed.

Lemma transforms_in_place_or_fresh_witness :
  (∃ st',
     reheating_oscillations 0%nat 2 (1/2) 1 1 (State [ [[[8]]] ] (λ _, 1)) = Ok (0%nat, st') ∧
     store st' !! 0%nat = Some (oscillated 1 (1/2) 1 1 (λ _, 1) [[[8]]] 2)) ∧
  (∃ new_grid st',
     inflation_stretch 0%nat 2 3 (State [ [[[8]]] ] (λ _, 1)) = Ok (new_grid, st') ∧
     new_grid ≠ 0%nat ∧
     store st' !! 0%nat = Some [[[8]]] ∧
     store st' !! new_grid = Some (stretched [[[8]]] 1 2 (dilution_factor 2 3))).
Proof.
  apply (transforms_in_place_or_fresh (1/2) 1 1 0%nat 1%nat [[[8]]]
           (State [ [[[8]]] ] (λ _, 1)) 2 2 3).
  - reflexivity.
  - split; [reflexivity|]. repeat constructor.
  - lia.
  - lia.
Defined.

(** After [inflation_stretch] on a field of side 1 with factor 2, the array
    that was passed in still holds its single cell, not the 2 x 2 x 2 result. *)
Lemma inflation_stretch_not_in_place :
  ∃ new_grid st',
    inflation_stretch 0%nat 2 3 (State [ [[[8]]] ] (λ _, 1)) = Ok (new_grid, st') ∧
    store st' !! 0%nat = Some [[[8]]] ∧
    store st' !! 0%nat ≠ store st' !! new_grid.
Proof.
  eexists _, _.
  split; [apply (inflation_stretch_run _ 0%nat [[[8]]] 1%nat 2 3);
          [reflexivity | split; [reflexivity | repeat constructor] | lia | lia]|].
  split; [reflexivity|].
  change (Some [[[8]]] ≠ Some (stretched [[[8]]] 1 (Z.to_nat 2) (dilution_factor 2 3))).
  intros H.
  apply (f_equal (λ o : option ndarray, length (default [] o))) in H.
  simpl in H. discriminate.
Qed.

(** ** The Foam Generator *)

Section Foam.

Implicit Types g : ndarray.

Lemma cubic_add_field n g C : cubic n (add_field n g C).
Proof. apply has_shape_tabulate3. Qed.

Lemma add_field_ext n g C C' :
  (∀ i j k, (i < n)%nat → (j < n)%nat → (k < n)%nat → C (i, j, k) = C' (i, j, k)) →
  add_field n g C = add_field n g C'.
Proof.
  intros H. apply tabulate3_ext. intros i j k Hi Hj Hk. rewrite H by assumption. reflexivity.
Qed.

Lemma add_field_zero n g : cubic n g → add_field n g (λ _, 0) = g.
Proof.
  intros Hg. symmetry. apply array_eq_tabulate; [exact Hg|]. intros i j k Hi Hj Hk.
  destruct (getitem_in_range _ _ _ g i j k Hg Hi Hj Hk) as [v ->]. simpl. f_equal. lra.
Qed.

Lemma add_field_add_field n g C1 C2 :
  add_field n (add_field n g C1) C2 = add_field n g (λ y, C1 y + C2 y).
Proof.
  apply tabulate3_ext. intros i j k Hi Hj Hk.
  unfold add_field at 1. rewrite getitem_tabulate3 by assumption. simpl. lra.
Qed.

Lemma additem_as_add_field n g (x : index) w :
  cubic n g → additem g x w = add_field n g (λ y, if decide (x = y) then w else 0).
Proof.
  intros Hg. apply array_eq_tabulate; [apply has_shape_additem, Hg|].
  intros i j k Hi Hj Hk. rewrite getitem_additem.
  destruct (getitem_in_range _ _ _ g i j k Hg Hi Hj Hk) as [v ->].
  destruct (decide (x = (i, j, k))); simpl; f_equal; lra.
Qed.

(** A loop of additions adds the sum. *)
Lemma foldl_add_field {A} n (C : A → index → R) (l : list A) g :
  cubic n g →
  foldl (λ g a, add_field n g (C a)) g l
  = add_field n g (λ y, sumR ((λ a, C a y) <$> l)).
Proof.
  revert g. induction l as [|a l IH]; intros g Hg; cbn [foldl].
  - symmetry. apply add_field_zero, Hg.
  - rewrite IH by apply cubic_add_field. rewrite add_field_add_field. reflexivity.
Qed.

Lemma sumR_indicator (W : index → R) (l : list index) y :
  NoDup l →
  sumR ((λ x, if decide (x = y) then W x else 0) <$> l) = if decide (y ∈ l) then W y else 0.
Proof.
  induction 1 as [|x l Hx Hl IH]; cbn [fmap list_fmap].
  - rewrite decide_False by apply not_elem_of_nil. reflexivity.
  - unfold sumR in *. cbn [foldr].
    change (list_fmap index R (λ x, if decide (x = y) then W x else 0) l)
      with ((λ x, if decide (x = y) then W x else 0) <$> l).
    rewrite IH.
    destruct (decide (x = y)) as [-> | Hne].
    + rewrite (decide_False (P := y ∈ l)) by exact Hx.
      rewrite (decide_True (P := y ∈ y :: l)) by (apply elem_of_cons; left; reflexivity).
      lra.
    + destruct (decide (y ∈ l)) as [Hin | Hnin].
      * rewrite decide_True by (apply elem_of_cons; right; exact Hin). lra.
      * rewrite decide_False; [lra|].
        intros Hin. apply elem_of_cons in Hin as [-> | Hin]; [congruence | contradiction].
Qed.

(** The indices of a clamped range are those of the window. *)
Lemma elem_of_window size sigma c i :
  i ∈ py_range (Z.max 0 (py_int (c - 3 * sigma)))
               (Z.min (Z.of_nat size) (py_int (c + 3 * sigma + 1)))
  ↔ window size sigma c i.
Proof. unfold py_range, window. rewrite elem_of_seq. lia. Qed.

Lemma window_in_range size sigma c i : window size sigma c i → (i < size)%nat.
Proof. unfold window. lia. Qed.

Lemma additem_zero g (x : index) : additem g x 0 = g.
Proof.
  destruct x as [[i j] k]. unfold additem.
  apply list_alter_id. intros plane. apply list_alter_id. intros row.
  apply list_alter_id. intros c. lra.
Qed.

Lemma foldl_ext_inv {A B} (Inv : B → Prop) (f f' : B → A → B) (l : list A) b :
  (∀ a b, a ∈ l → Inv b → f b a = f' b a) →
  (∀ a b, a ∈ l → Inv b → Inv (f b a)) →
  Inv b → foldl f b l = foldl f' b l.
Proof.
  revert b. induction l as [|a l IH]; intros b Hf HInv Hb; [reflexivity|].
  cbn [foldl]. rewrite <- (Hf a b) by (try (apply elem_of_cons; left; reflexivity); exact Hb).
  apply IH.
  - intros a' b' Ha' Hb'. apply Hf; [apply elem_of_cons; right; exact Ha' | exact Hb'].
  - intros a' b' Ha' Hb'. apply HInv; [apply elem_of_cons; right; exact Ha' | exact Hb'].
  - apply HInv; [apply elem_of_cons; left; reflexivity | exact Hb].
Qed.

(** The body of the innermost loop of [rasterize] adds the kernel value of
    the cell (0 where the distance test fails). *)
Lemma rasterize_cell_run (grid : nat) size sigma chi x1 x2 i j k st g :
  store st !! grid = Some g → cubic size g →
  (i < size)%nat → (j < size)%nat → (k < size)%nat →
  match point_to_line_dist (Vec3 (INR i) (INR j) (INR k)) x1 x2 with
  | Some dist =>
      if Rlt_dec dist (3 * sigma) then
        additem_ grid (i, j, k) (chi * exp (- dist ^ 2 / (2 * sigma ^ 2)))
      else mret tt
  | None => mret tt
  end st = Ok (tt, set_obj grid (additem g (i, j, k) (kernel sigma chi x1 x2 (i, j, k))) st).
Proof.
  intros Hgrid Hg Hi Hj Hk. unfold kernel. cbn [fst snd].
  destruct (point_to_line_dist (Vec3 (INR i) (INR j) (INR k)) x1 x2) as [d|].
  - destruct (Rlt_dec d (3 * sigma)).
    + apply run_additem_; [exact Hgrid|]. eapply getitem_in_range; eassumption.
    + rewrite additem_zero, set_obj_same by exact Hgrid. reflexivity.
  - rewrite additem_zero, set_obj_same by exact Hgrid. reflexivity.
Qed.

(** One sample point: [rasterize] adds [sample_contribution] to every cell. *)
Lemma rasterize_run (grid : nat) size sigma chi x1 x2 center st g :
  store st !! grid = Some g → cubic size g →
  rasterize grid size sigma chi x1 x2 center st =
    Ok (tt, set_obj grid
              (add_field size g (sample_contribution size sigma chi x1 x2 center)) st).
Proof.
  intros Hgrid Hg. unfold rasterize.
  set (l1 := py_range _ _). set (l2 := py_range _ _). set (l3 := py_range _ _).
  set (W := kernel sigma chi x1 x2).
  set (Inv := λ g : ndarray, cubic size g).
  assert (HInv : ∀ x b, Inv b → Inv (additem b x (W x))).
  { intros x b Hb. apply has_shape_additem, Hb. }
  assert (H1 : ∀ i, i ∈ l1 → (i < size)%nat).
  { intros i Hi. apply elem_of_window in Hi. eapply window_in_range, Hi. }
  assert (H2 : ∀ i, i ∈ l2 → (i < size)%nat).
  { intros i Hi. apply elem_of_window in Hi. eapply window_in_range, Hi. }
  assert (H3 : ∀ i, i ∈ l3 → (i < size)%nat).
  { intros i Hi. apply elem_of_window in Hi. eapply window_in_range, Hi. }
  rewrite (for_fold grid (λ _, True) Inv
             (λ i g, foldl (λ g j, foldl (λ g k, additem g (i, j, k) (W (i, j, k))) g l3) g l2)
             l1 _ (λ _ _ _, I)) with (g := g); [| | |exact I|exact Hgrid|exact Hg].
  - f_equal. f_equal. f_equal.
    rewrite (foldl_cells3 (λ x g, additem g x (W x))).
    rewrite (foldl_ext_inv Inv _
               (λ g x, add_field size g (λ y, if decide (x = y) then W x else 0))).
    + rewrite (foldl_add_field size (λ x y, if decide (x = y) then W x else 0)) by exact Hg.
      apply add_field_ext. intros i j k Hi Hj Hk.
      rewrite sumR_indicator
        by (apply NoDup_cells3; apply NoDup_seq).
      unfold sample_contribution.
      destruct (decide ((i, j, k) ∈ cells3 l1 l2 l3)) as [Hin | Hnin];
        destruct (decide (in_neighbourhood size sigma center (i, j, k))) as [Hnb | Hnnb];
        try reflexivity; exfalso.
      * apply Hnnb. apply elem_of_cells3 in Hin as (Hi1 & Hj1 & Hk1).
        subst l1 l2 l3. apply elem_of_window in Hi1, Hj1, Hk1.
        exact (conj Hi1 (conj Hj1 Hk1)).
      * apply Hnin. destruct Hnb as (Hi1 & Hj1 & Hk1). cbn [fst snd] in *.
        apply elem_of_cells3. subst l1 l2 l3.
        repeat split; apply elem_of_window; assumption.
    + intros x b _ Hb. apply additem_as_add_field, Hb.
    + intros x b _ Hb. apply HInv, Hb.
    + exact Hg.
  - intros i b _ Hb. apply (foldl_inv Inv); [|exact Hb].
    intros j b2 _ Hb2. apply (foldl_inv Inv); [|exact Hb2].
    intros k b3 _ Hb3. apply HInv, Hb3.
  - intros i st1 g1 Hi _ Hg1 HI1.
    apply (for_fold grid (λ _, True) Inv
             (λ j g, foldl (λ g k, additem g (i, j, k) (W (i, j, k))) g l3)
             l2 _ (λ _ _ _, I)); [| |exact I|exact Hg1|exact HI1].
    + intros j b2 _ Hb2. apply (foldl_inv Inv); [|exact Hb2].
      intros k b3 _ Hb3. apply HInv, Hb3.
    + intros j st2 g2 Hj _ Hg2 HI2.
      apply (for_fold grid (λ _, True) Inv
               (λ k g, additem g (i, j, k) (W (i, j, k)))
               l3 _ (λ _ _ _, I)); [| |exact I|exact Hg2|exact HI2].
      * intros k b3 _ Hb3. apply HInv, Hb3.
      * intros k st3 g3 Hk _ Hg3 HI3.
        apply (rasterize_cell_run grid size); [exact Hg3 | exact HI3 | auto ..].
Qed.

Lemma run_uniform low high st :
  np_random_uniform low high st =
    Ok (low + (high - low) * rng st 0%nat, State (store st) (λ n, rng st (S n))).
Proof. reflexivity. Qed.

Lemma run_rand st :
  np_random_rand st = Ok (rng st 0%nat, State (store st) (λ n, rng st (S n))).
Proof. reflexivity. Qed.

(** The ten sample points of one string. *)
Lemma samples_run (grid : nat) size sigma chi x1 x2 st g :
  store st !! grid = Some g → cubic size g →
  for_ (np_linspace 0 1 10) (λ t,
    let center := vadd x1 (vscale t (vsub x2 x1)) in
    rasterize grid size sigma chi x1 x2 center) st
  = Ok (tt, set_obj grid (add_field size g (λ y,
        sumR ((λ t, sample_contribution size sigma chi x1 x2
                      (vadd x1 (vscale t (vsub x2 x1))) y) <$> np_linspace 0 1 10))) st).
Proof.
  intros Hgrid Hg.
  rewrite (for_fold grid (λ _, True) (λ g, cubic size g)
             (λ t g, add_field size g
                (sample_contribution size sigma chi x1 x2 (vadd x1 (vscale t (vsub x2 x1)))))
             _ _ (λ _ _ _, I)) with (g := g); [| | |exact I|exact Hgrid|exact Hg].
  - rewrite (foldl_add_field size
      (λ t, sample_contribution size sigma chi x1 x2 (vadd x1 (vscale t (vsub x2 x1)))))
      by exact Hg.
    reflexivity.
  - intros t b _ _. apply cubic_add_field.
  - intros t st1 g1 _ _ Hg1 HI1. cbv zeta. apply rasterize_run; assumption.
Qed.

Lemma sumR_singleton (a : R) : sumR [a] = a.
Proof. unfold sumR. simpl. lra. Qed.

Lemma foam_0 size delta_chi sigma draws :
  foam size 0 delta_chi sigma draws = zeros size size size.
Proof. reflexivity. Qed.

Lemma foam_S size s delta_chi sigma draws :
  add_field size (foam size s delta_chi sigma draws)
    (string_contribution size delta_chi sigma draws s)
  = foam size (S s) delta_chi sigma draws.
Proof.
  apply tabulate3_ext. intros i j k Hi Hj Hk. unfold foam.
  rewrite getitem_tabulate3 by assumption. cbn [default from_option]. unfold id.
  rewrite tabulate_S, sumR_app, sumR_singleton. reflexivity.
Qed.

Lemma cubic_foam size s delta_chi sigma draws : cubic size (foam size s delta_chi sigma draws).
Proof. apply has_shape_tabulate3. Qed.

(** A call of [generate_vorticity_grid] creates one new array object, the
    foam of the strings read from the random source, and consumes seven
    draws for each string. *)
Lemma generate_vorticity_grid_run (size num_strings : nat) (delta_chi sigma : R) st :
  ∃ st',
    generate_vorticity_grid size num_strings delta_chi sigma st
      = Ok (length (store st), st') ∧
    store st' = store st ++ [foam size num_strings delta_chi sigma (rng st)] ∧
    (∀ m, rng st' m = rng st (7 * num_strings + m)%nat).
Proof.
  unfold generate_vorticity_grid.
  rewrite (run_bind _ _ _ _ _ (run_np_zeros _ _)). cbv zeta.
  match goal with |- context [for_ (seq 0 num_strings) ?b] =>
    destruct (for_seq_inv
      (λ s st', store st' = store st ++ [foam size s delta_chi sigma (rng st)] ∧
                (∀ m, rng st' m = rng st (7 * s + m)%nat))
      b num_strings) with (st := State (store st ++ [zeros size size size]) (rng st))
      as (st' & Hrun & Hstore & Hrng)
  end.
  - intros s st1 _ [Hstore1 Hrng1].
    rewrite (run_bind _ _ _ _ _ (run_uniform _ _ _)).
    rewrite (run_bind _ _ _ _ _ (run_uniform _ _ _)).
    rewrite (run_bind _ _ _ _ _ (run_uniform _ _ _)).
    rewrite (run_bind _ _ _ _ _ (run_uniform _ _ _)).
    rewrite (run_bind _ _ _ _ _ (run_uniform _ _ _)).
    rewrite (run_bind _ _ _ _ _ (run_uniform _ _ _)).
    rewrite (run_bind _ _ _ _ _ (run_rand _)).
    cbn [rng store].
    rewrite (samples_run (length (store st)) size _ _ _ _ _
               (foam size s delta_chi sigma (rng st))).
    + eexists. split; [reflexivity|]. cbn [set_obj rng store]. split.
      * rewrite Hstore1, insert_app_r_alt, Nat.sub_diag by lia. cbn [insert list_insert].
        f_equal. f_equal. rewrite <- foam_S. apply add_field_ext. intros i j k _ _ _.
        unfold string_contribution, string_x1, string_x2, string_chi.
        rewrite !Hrng1, !Nat.add_0_r.
        replace (7 * s + 1)%nat with (7 * s + 1)%nat by reflexivity.
        reflexivity.
      * intros m. rewrite Hrng1. f_equal. lia.
    + cbn [store]. rewrite Hstore1, lookup_app_r, Nat.sub_diag by lia. reflexivity.
    + apply cubic_foam.
  - split; [|intros m; reflexivity]. rewrite foam_0. reflexivity.
  - exists st'. split; [|split; assumption].
    rewrite (run_bind _ _ _ _ _ Hrun). reflexivity.
Qed.

Lemma sample_contribution_nonzero size sigma chi x1 x2 center (x : index) :
  dot (vsub x2 x1) (vsub x2 x1) ≠ 0 →
  sample_contribution size sigma chi x1 x2 center x
  = sample_kernel size sigma chi x1 x2 center x.
Proof.
  intros Hne. unfold sample_contribution, sample_kernel, kernel.
  rewrite (point_to_line_dist_nonzero _ _ _ Hne). reflexivity.
Qed.

(** Adding the terms one after the other, from the left. *)
Lemma foldl_plus {A} (f : A → R) (l : list A) (a : R) :
  foldl (λ acc x, acc + f x) a l = a + sumR (f <$> l).
Proof.
  revert a. induction l as [|x l IH]; intros a.
  - unfold sumR. simpl. lra.
  - cbn [foldl fmap list_fmap]. rewrite IH. unfold sumR. cbn [foldr]. lra.
Qed.

Lemma foldl_foldl_plus {A B} (F : A → B → R) (L : list B) (l : list A) (a : R) :
  foldl (λ acc s, foldl (λ acc t, acc + F s t) acc L) a l
  = a + sumR ((λ s, sumR (F s <$> L)) <$> l).
Proof.
  revert a. induction l as [|x l IH]; intros a.
  - unfold sumR. simpl. lra.
  - cbn [foldl fmap list_fmap]. rewrite IH, foldl_plus. unfold sumR. cbn [foldr]. lra.
Qed.

Lemma accumulate_sum (K : nat → R → R) n :
  accumulate K n = sumR (tabulate n (λ s, sumR (K s <$> np_linspace 0 1 10))).
Proof. unfold accumulate. rewrite foldl_foldl_plus. unfold tabulate. lra. Qed.

Lemma accumulate_ext (K K' : nat → R → R) n :
  (∀ s t, (s < n)%nat → K s t = K' s t) → accumulate K n = accumulate K' n.
Proof.
  intros H. rewrite !accumulate_sum. apply sumR_tabulate_ext. intros s Hs.
  apply sumR_ext. intros t _. apply H, Hs.
Qed.

(** The closed form of a cell of the foam is the value accumulated by the
    updates. *)
Lemma foam_accumulate size num_strings delta_chi sigma draws (x : index) :
  sumR (tabulate num_strings (λ s, string_contribution size delta_chi sigma draws s x))
  = accumulate (λ s t,
      sample_contribution size sigma (string_chi delta_chi draws s)
        (string_x1 size draws s) (string_x2 size draws s)
        (segment_point (string_x1 size draws s) (string_x2 size draws s) t) x)
      num_strings.
Proof. rewrite accumulate_sum. reflexivity. Qed.

(** C1, as the code has it.  [generate_vorticity_grid] returns a new field
    of side [size] in which every cell holds the value accumulated, string
    after string and sample point after sample point, from what each sample
    point adds to it; and a sample point of a string whose squared length
    [dot (x2 - x1) (x2 - x1)] is not zero adds the kernel value
    [χ exp(-d² / (2σ²))], [d] being the distance from the cell to the whole
    segment, exactly when the indices of the cell lie in the window of the
    sample, clamped to [0, size), and [d < 3σ]; it adds nothing to any other
    cell.  (What a string of zero squared length adds is left open.) *)
Theorem generate_vorticity_grid_cells (size num_strings : nat) (delta_chi sigma : R) st :
  ∃ G st',
    generate_vorticity_grid size num_strings delta_chi sigma st
      = Ok (length (store st), st') ∧
    store st' = store st ++ [G] ∧
    cubic size G ∧
    ∀ i j k, (i < size)%nat → (j < size)%nat → (k < size)%nat →
      ∃ K : nat → R → R,
        getitem G (i, j, k) = Some (accumulate K num_strings) ∧
        ∀ s t, (s < num_strings)%nat →
          let x1 := string_x1 size (rng st) s in
          let x2 := string_x2 size (rng st) s in
          dot (vsub x2 x1) (vsub x2 x1) ≠ 0 →
          K s t = sample_kernel size sigma (string_chi delta_chi (rng st) s) x1 x2
                    (segment_point x1 x2 t) (i, j, k).
Proof.
  destruct (generate_vorticity_grid_run size num_strings delta_chi sigma st)
    as (st' & Hrun & Hstore & _).
  eexists _, st'. split; [exact Hrun|]. split; [exact Hstore|].
  split; [apply cubic_foam|]. intros i j k Hi Hj Hk.
  eexists. split.
  - unfold foam. rewrite getitem_tabulate3 by assumption. f_equal.
    apply foam_accumulate.
  - intros s t _ x1 x2 Hne. apply sample_contribution_nonzero, Hne.
Qed.

End Foam.

(** [int(x)] of a float that is not negative. *)
Lemma py_int_nonneg (x : R) (z : Z) : 0 <= x → IZR z <= x < IZR z + 1 → py_int x = z.
Proof.
  intros H0 Hz. unfold py_int. destruct (Rle_dec 0 x); [|contradiction].
  apply Zfloor_eq, Hz.
Qed.

(** [int(x)] of a float that is negative, towards zero. *)
Lemma py_int_neg (x : R) (z : Z) : x < 0 → IZR z - 1 < x <= IZR z → py_int x = z.
Proof.
  intros H0 Hz. unfold py_int. destruct (Rle_dec 0 x); [lra|].
  unfold Zceil. rewrite (Zfloor_eq (- z)); [lia|]. rewrite opp_IZR. lra.
Qed.

(** The sample point (1/2, 1/2, 1/2) of a segment in the plane [y = 1/2],
    with σ = 1/10 on a lattice of one cell. *)
Lemma single_cell_in_neighbourhood :
  in_neighbourhood 1 (1/10) (Vec3 (1/2) (1/2) (1/2)) (0, 0, 0)%nat.
Proof.
  assert (Hlo : py_int (1/2 - 3 * (1/10)) = 0%Z) by (apply py_int_nonneg; simpl; lra).
  assert (Hhi : py_int (1/2 + 3 * (1/10) + 1) = 1%Z) by (apply py_int_nonneg; simpl; lra).
  unfold in_neighbourhood, window. cbn [fst snd vx vy vz]. rewrite Hlo, Hhi.
  repeat split; lia.
Qed.

Lemma single_cell_far_from_segment :
  ∃ d, point_to_line_dist (Vec3 (INR 0) (INR 0) (INR 0))
         (Vec3 (1/2) (1/2) (1/2)) (Vec3 (3/5) (1/2) (1/2)) = Some d ∧
       3 * (1/10) <= d.
Proof.
  assert (Hne : Vec3 (1/2) (1/2) (1/2) ≠ Vec3 (3/5) (1/2) (1/2)).
  { intros H. apply (f_equal vx) in H. simpl in H. lra. }
  rewrite (point_to_line_dist_defined _ _ _ Hne). eexists. split; [reflexivity|].
  set (t := clamp01 _). unfold norm.
  rewrite <- (sqrt_square (3 * (1/10))) by lra.
  apply sqrt_le_1_alt. unfold dot, vsub, segment_point, vadd, vscale. simpl.
  assert (0 <= (0 - (1 / 2 + t * (3 / 5 - 1 / 2))) * (0 - (1 / 2 + t * (3 / 5 - 1 / 2))))
    by apply Rle_0_sqr.
  assert (0 <= (0 - (1 / 2 + t * (1 / 2 - 1 / 2))) * (0 - (1 / 2 + t * (1 / 2 - 1 / 2))))
    by apply Rle_0_sqr.
  lra.
Qed.

(** The sample point (5/2, 5/2, 5/2) of a segment along the first axis, with
    σ = 1 on a lattice of side 4, and the cell (0, 0, 0). *)
Lemma corner_cell_in_neighbourhood :
  in_neighbourhood 4 1 (Vec3 (5/2) (5/2) (5/2)) (0, 0, 0)%nat.
Proof.
  assert (Hlo : py_int (5/2 - 3 * 1) = 0%Z) by (apply py_int_neg; simpl; lra).
  assert (Hhi : py_int (5/2 + 3 * 1 + 1) = 6%Z) by (apply py_int_nonneg; simpl; lra).
  unfold in_neighbourhood, window. cbn [fst snd vx vy vz]. rewrite Hlo, Hhi.
  repeat split; lia.
Qed.

Lemma corner_cell_far_from_segment :
  ∃ d, point_to_line_dist (Vec3 (INR 0) (INR 0) (INR 0))
         (Vec3 (5/2) (5/2) (5/2)) (Vec3 (7/2) (5/2) (5/2)) = Some d ∧
       3 * 1 <= d.
Proof.
  rewrite point_to_line_dist_nonzero by (unfold dot, vsub; simpl; lra).
  eexists. split; [reflexivity|].
  unfold segment_dist. set (t := clamp01 _). unfold norm.
  rewrite <- (sqrt_square (3 * 1)) by lra.
  apply sqrt_le_1_alt. unfold dot, vsub, segment_point, vadd, vscale. simpl.
  assert (0 <= (0 - (5 / 2 + t * (7 / 2 - 5 / 2))) * (0 - (5 / 2 + t * (7 / 2 - 5 / 2))))
    by apply Rle_0_sqr.
  lra.
Qed.

(** The claim of C1 without the distance test fails.  One string on a
    lattice of side 4 with σ = 1: the random source gives the end points
    (5/2, 5/2, 5/2) and (7/2, 5/2, 5/2) and the handedness +1.  The cell
    (0, 0, 0) is 5/2 < 3σ away from the first sample point along every axis
    and lies in its window, and its kernel value is not zero; yet the cell
    of the returned field is 0: the cell is farther than 3σ from the
    segment. *)
Lemma generate_vorticity_grid_skips_distant_cells :
  ∃ d G st',
    generate_vorticity_grid 4 1 0 1 (State [] corner_draws) = Ok (0%nat, st') ∧
    store st' = [G] ∧
    string_x1 4 corner_draws 0 = Vec3 (5/2) (5/2) (5/2) ∧
    string_x2 4 corner_draws 0 = Vec3 (7/2) (5/2) (5/2) ∧
    string_chi 0 corner_draws 0 = 1 ∧
    segment_point (Vec3 (5/2) (5/2) (5/2)) (Vec3 (7/2) (5/2) (5/2)) 0
      = Vec3 (5/2) (5/2) (5/2) ∧
    Rabs (INR 0 - 5/2) < 3 * 1 ∧
    in_neighbourhood 4 1 (Vec3 (5/2) (5/2) (5/2)) (0, 0, 0)%nat ∧
    point_to_line_dist (Vec3 (INR 0) (INR 0) (INR 0))
      (Vec3 (5/2) (5/2) (5/2)) (Vec3 (7/2) (5/2) (5/2)) = Some d ∧
    3 * 1 <= d ∧
    1 * exp (- d ^ 2 / (2 * 1 ^ 2)) ≠ 0 ∧
    getitem G (0, 0, 0)%nat = Some 0.
Proof.
  destruct corner_cell_far_from_segment as (d & Hd & Hfar).
  assert (Hx1 : string_x1 4 corner_draws 0 = Vec3 (5/2) (5/2) (5/2)).
  { unfold string_x1, corner_draws. simpl. apply vec3_eq; simpl; lra. }
  assert (Hx2 : string_x2 4 corner_draws 0 = Vec3 (7/2) (5/2) (5/2)).
  { unfold string_x2, corner_draws. simpl. apply vec3_eq; simpl; lra. }
  assert (Hchi : string_chi 0 corner_draws 0 = 1).
  { unfold string_chi, corner_draws. simpl.
    destruct (Rlt_dec 0 (0.5 + 0 / 2)); [reflexivity | lra]. }
  destruct (generate_vorticity_grid_run 4 1 0 1 (State [] corner_draws))
    as (st' & Hrun & Hstore & _).
  exists d, (foam 4 1 0 1 corner_draws), st'.
  split; [exact Hrun|]. split; [exact Hstore|].
  split; [exact Hx1|]. split; [exact Hx2|]. split; [exact Hchi|].
  split; [apply segment_point_0|].
  split; [simpl; unfold Rabs; destruct Rcase_abs; lra|].
  split; [exact corner_cell_in_neighbourhood|].
  split; [exact Hd|]. split; [exact Hfar|].
  split; [pose proof (exp_pos (- d ^ 2 / (2 * 1 ^ 2))); lra|].
  unfold foam. rewrite getitem_tabulate3 by lia. f_equal.
  change (tabulate 1 (λ s, string_contribution 4 0 1 corner_draws s (0, 0, 0)%nat))
    with [string_contribution 4 0 1 corner_draws 0 (0, 0, 0)%nat].
  rewrite sumR_singleton. unfold string_contribution. cbv zeta.
  rewrite Hx1, Hx2, Hchi.
  rewrite (sumR_const _ 0); [lra|].
  intros t _. unfold sample_contribution, kernel. cbn [fst snd]. rewrite Hd.
  destruct (Rlt_dec d (3 * 1)); [lra|].
  destruct (decide _); reflexivity.
Qed.

Lemma elem_of_np_linspace_unit t : t ∈ np_linspace 0 1 10 → 0 <= t <= 1.
Proof.
  unfold np_linspace. intros Ht. apply list_elem_of_fmap in Ht as (i & -> & Hi).
  apply elem_of_seq in Hi.
  assert (H0 : 0 <= INR i) by apply pos_INR.
  assert (H9 : INR i <= 9).
  { replace 9 with (INR 9) by (simpl; lra). apply le_INR. lia. }
  change (INR (10 - 1)) with (INR 9). replace (INR 9) with 9 by (simpl; lra). lra.
Qed.

Lemma unit_string_x1 c : string_x1 1 (unit_draws c) 0 = Vec3 (1/2) (1/2) (1/2).
Proof. unfold string_x1, unit_draws. simpl. apply vec3_eq; simpl; lra. Qed.

Lemma unit_string_x2 c : string_x2 1 (unit_draws c) 0 = Vec3 (3/5) (1/2) (1/2).
Proof. unfold string_x2, unit_draws. simpl. apply vec3_eq; simpl; lra. Qed.

Lemma unit_string_nonzero c s :
  (s < 1)%nat →
  dot (vsub (string_x2 1 (unit_draws c) s) (string_x1 1 (unit_draws c) s))
      (vsub (string_x2 1 (unit_draws c) s) (string_x1 1 (unit_draws c) s)) ≠ 0.
Proof.
  intros Hs. replace s with 0%nat by lia. rewrite unit_string_x1, unit_string_x2.
  unfold dot, vsub. simpl. lra.
Qed.

Lemma unit_window t :
  0 <= t <= 1 →
  in_neighbourhood 1 1
    (segment_point (Vec3 (1/2) (1/2) (1/2)) (Vec3 (3/5) (1/2) (1/2)) t) (0, 0, 0)%nat.
Proof.
  intros Ht.
  assert (Hw : ∀ c, 1/2 <= c <= 3/5 → window 1 1 c 0).
  { intros c Hc. unfold window.
    rewrite (py_int_neg (c - 3 * 1) (-2)) by (simpl; lra).
    rewrite (py_int_nonneg (c + 3 * 1 + 1) 4) by (simpl; lra). lia. }
  unfold in_neighbourhood. cbn [fst snd vx vy vz segment_point vadd vscale vsub].
  repeat split; apply Hw; nra.
Qed.

Lemma unit_segment_dist :
  segment_dist (Vec3 (INR 0) (INR 0) (INR 0)) (Vec3 (1/2) (1/2) (1/2)) (Vec3 (3/5) (1/2) (1/2))
  < 3 * 1.
Proof.
  unfold segment_dist. set (t := clamp01 _).
  pose proof (clamp01_range
    (dot (vsub (Vec3 (INR 0) (INR 0) (INR 0)) (Vec3 (1/2) (1/2) (1/2)))
         (vsub (Vec3 (3/5) (1/2) (1/2)) (Vec3 (1/2) (1/2) (1/2)))
     / dot (vsub (Vec3 (3/5) (1/2) (1/2)) (Vec3 (1/2) (1/2) (1/2)))
           (vsub (Vec3 (3/5) (1/2) (1/2)) (Vec3 (1/2) (1/2) (1/2))))) as Ht.
  fold t in Ht. unfold norm.
  replace (3 * 1) with (sqrt (3 * 3)) by (rewrite sqrt_square; lra).
  apply sqrt_lt_1_alt. split; [apply dot_self_nonneg|].
  unfold dot, vsub, segment_point, vadd, vscale. simpl. nra.
Qed.

(** Every sample point adds the kernel value of the cell. *)
Lemma unit_sample_kernel chi t :
  t ∈ np_linspace 0 1 10 →
  sample_kernel 1 1 chi (Vec3 (1/2) (1/2) (1/2)) (Vec3 (3/5) (1/2) (1/2))
    (segment_point (Vec3 (1/2) (1/2) (1/2)) (Vec3 (3/5) (1/2) (1/2)) t) (0, 0, 0)%nat
  = chi * exp (- segment_dist (Vec3 (INR 0) (INR 0) (INR 0))
                   (Vec3 (1/2) (1/2) (1/2)) (Vec3 (3/5) (1/2) (1/2)) ^ 2 / (2 * 1 ^ 2)).
Proof.
  intros Ht. apply elem_of_np_linspace_unit in Ht. unfold sample_kernel.
  rewrite decide_True by (apply (unit_window t Ht)).
  cbn [fst snd].
  destruct (Rlt_dec _ (3 * 1)) as [_ | Hn]; [reflexivity|].
  exfalso. apply Hn, unit_segment_dist.
Qed.

(** What the string adds to the cell is its handedness times a positive number. *)
Lemma unit_string_contribution c :
  ∃ P, 0 < P ∧
    string_contribution 1 0 1 (unit_draws c) 0 (0, 0, 0)%nat
    = string_chi 0 (unit_draws c) 0 * P.
Proof.
  set (d := segment_dist (Vec3 (INR 0) (INR 0) (INR 0))
              (Vec3 (1/2) (1/2) (1/2)) (Vec3 (3/5) (1/2) (1/2))).
  exists (INR 10 * exp (- d ^ 2 / (2 * 1 ^ 2))). split.
  - apply Rmult_lt_0_compat; [simpl; lra | apply exp_pos].
  - unfold string_contribution. cbv zeta. rewrite unit_string_x1, unit_string_x2.
    rewrite (sumR_const _ (string_chi 0 (unit_draws c) 0 * exp (- d ^ 2 / (2 * 1 ^ 2)))).
    + unfold np_linspace. rewrite length_fmap, length_seq. ring.
    + intros t Ht.
      rewrite sample_contribution_nonzero by (unfold dot, vsub; simpl; lra).
      apply unit_sample_kernel, Ht.
Qed.

(** One right-handed string on a lattice of one cell, with σ = 1: the cell
    receives the kernel value from each of the ten sample points. *)
Lemma generate_vorticity_grid_cells_witness :
  ∃ G st' v,
    generate_vorticity_grid 1 1 0 1 (State [] (unit_draws 0)) = Ok (0%nat, st') ∧
    store st' = [G] ∧
    getitem G (0, 0, 0)%nat = Some v ∧
    v = accumulate (λ _ t,
          sample_kernel 1 1 1 (Vec3 (1/2) (1/2) (1/2)) (Vec3 (3/5) (1/2) (1/2))
            (segment_point (Vec3 (1/2) (1/2) (1/2)) (Vec3 (3/5) (1/2) (1/2)) t)
            (0, 0, 0)%nat) 1 ∧
    0 < v.
Proof.
  destruct (generate_vorticity_grid_cells 1 1 0 1 (State [] (unit_draws 0)))
    as (G & st' & Hrun & Hstore & _ & Hcells).
  destruct (Hcells 0%nat 0%nat 0%nat) as (K & Hv & HK); [lia ..|].
  assert (Hchi : string_chi 0 (unit_draws 0) 0 = 1).
  { unfold string_chi, unit_draws. simpl.
    destruct (Rlt_dec 0 (0.5 + 0 / 2)); [reflexivity | lra]. }
  assert (HK' : accumulate K 1 = accumulate (λ _ t,
            sample_kernel 1 1 1 (Vec3 (1/2) (1/2) (1/2)) (Vec3 (3/5) (1/2) (1/2))
              (segment_point (Vec3 (1/2) (1/2) (1/2)) (Vec3 (3/5) (1/2) (1/2)) t)
              (0, 0, 0)%nat) 1).
  { apply accumulate_ext. intros s t Hs. replace s with 0%nat by lia.
    rewrite (HK 0%nat t) by (lia || apply (unit_string_nonzero 0); lia).
    cbn [rng]. rewrite Hchi, unit_string_x1, unit_string_x2. reflexivity. }
  exists G, st', (accumulate K 1).
  split; [exact Hrun|]. split; [exact Hstore|]. split; [exact Hv|].
  split; [exact HK'|]. rewrite HK', accumulate_sum.
  change (tabulate 1 ?f) with [f 0%nat]. rewrite sumR_singleton.
  rewrite (sumR_const _ (1 * exp (- segment_dist (Vec3 (INR 0) (INR 0) (INR 0))
             (Vec3 (1/2) (1/2) (1/2)) (Vec3 (3/5) (1/2) (1/2)) ^ 2 / (2 * 1 ^ 2))))
    by (intros t Ht; apply unit_sample_kernel, Ht).
  unfold np_linspace. rewrite length_fmap, length_seq.
  pose proof (exp_pos (- segment_dist (Vec3 (INR 0) (INR 0) (INR 0))
             (Vec3 (1/2) (1/2) (1/2)) (Vec3 (3/5) (1/2) (1/2)) ^ 2 / (2 * 1 ^ 2))).
  replace (INR 10) with 10 by (simpl; lra). lra.
Defined.

(** ** The Cycle Driver *)

Section CycleRun.

Variables (size num_strings : nat) (delta_chi sigma : R).
Variables (stretch_factor dilution_power : Z).
Variables (num_steps : nat) (epsilon omega delta_chi' : R).

(** Dependence on the random source. *)
Lemma oscillated_agree n (d1 d2 : nat → R) g m :
  (∀ i, (i < m * (n * n * n))%nat → d1 i = d2 i) →
  oscillated n epsilon omega delta_chi' d1 g m = oscillated n epsilon omega delta_chi' d2 g m.
Proof.
  induction m as [|m IH]; intros H; [reflexivity|].
  cbn [oscillated]. rewrite IH by (intros i Hi; apply H; lia).
  apply tabulate3_ext. intros i j k Hi Hj Hk. rewrite H; [reflexivity|].
  assert (((i * n + j) * n + k < n * n * n)%nat) by nia. lia.
Qed.

Lemma string_contribution_agree (d1 d2 : nat → R) s x :
  (∀ i, (7 * s <= i < 7 * s + 7)%nat → d1 i = d2 i) →
  string_contribution size delta_chi sigma d1 s x
  = string_contribution size delta_chi sigma d2 s x.
Proof.
  intros H. unfold string_contribution, string_x1, string_x2, string_chi.
  rewrite !H by lia. reflexivity.
Qed.

Lemma foam_agree (d1 d2 : nat → R) :
  (∀ i, (i < 7 * num_strings)%nat → d1 i = d2 i) →
  foam size num_strings delta_chi sigma d1 = foam size num_strings delta_chi sigma d2.
Proof.
  intros H. apply tabulate3_ext. intros i j k _ _ _.
  apply sumR_tabulate_ext. intros s Hs.
  apply string_contribution_agree. intros m Hm. apply H. lia.
Qed.

Lemma cubic_reset_field draws :
  cubic size (reset_field size num_strings delta_chi sigma draws).
Proof.
  unfold reset_field, foam_field, foam, scalar_times.
  rewrite map3_tabulate3, add_array_tabulate3. apply has_shape_tabulate3.
Qed.

Lemma reset_field_agree (d1 d2 : nat → R) :
  (∀ i, (i < 7 * num_strings + size * size * size)%nat → d1 i = d2 i) →
  reset_field size num_strings delta_chi sigma d1
  = reset_field size num_strings delta_chi sigma d2.
Proof.
  intros H. unfold reset_field, foam_field.
  rewrite (foam_agree d1 d2) by (intros i Hi; apply H; lia).
  f_equal. f_equal. apply tabulate3_ext. intros i j k Hi Hj Hk. apply H.
  assert (((i * size + j) * size + k < size * size * size)%nat) by nia. lia.
Qed.

Lemma cycle_result_agree (d1 d2 : nat → R) :
  (∀ i, (i < draws_used size num_strings stretch_factor num_steps)%nat → d1 i = d2 i) →
  cycle_result size num_strings delta_chi sigma stretch_factor dilution_power
    num_steps epsilon omega delta_chi' d1
  = cycle_result size num_strings delta_chi sigma stretch_factor dilution_power
    num_steps epsilon omega delta_chi' d2.
Proof.
  unfold draws_used. intros H.
  assert (Hfoam : foam_field size num_strings delta_chi sigma d1
                  = foam_field size num_strings delta_chi sigma d2).
  { apply foam_agree. intros i Hi. apply H. lia. }
  assert (Hreset : reset_field size num_strings delta_chi sigma d1
                   = reset_field size num_strings delta_chi sigma d2).
  { apply reset_field_agree. intros i Hi. apply H. lia. }
  assert (Hreheat :
    reheated_field size num_strings delta_chi sigma stretch_factor dilution_power
      num_steps epsilon omega delta_chi' d1
    = reheated_field size num_strings delta_chi sigma stretch_factor dilution_power
      num_steps epsilon omega delta_chi' d2).
  { unfold reheated_field, stretched_field. rewrite Hreset.
    apply oscillated_agree. intros i Hi. unfold skip. apply H. lia. }
  unfold cycle_result, stretched_field. rewrite Hfoam, Hreset, Hreheat. reflexivity.
Qed.

Lemma run_np_sum_ (grid : nat) st g :
  store st !! grid = Some g → np_sum_ grid st = Ok (np_sum g, st).
Proof.
  intros H. unfold np_sum_. rewrite (run_bind _ _ _ _ _ (run_load _ _ _ H)). reflexivity.
Qed.

Lemma run_np_random_normal (n : nat) st :
  np_random_normal (n, n, n) st =
    Ok (tabulate3 n n n (λ i j k, rng st ((i * n + j) * n + k)%nat),
        State (store st) (λ m, rng st (n * n * n + m)%nat)).
Proof. reflexivity. Qed.

(** One cycle runs to completion and returns [cycle_result]. *)
Lemma run_cycle_run st :
  (0 < size)%nat → (0 < stretch_factor)%Z →
  ∃ st',
    run_cycle size num_strings delta_chi sigma stretch_factor dilution_power
      num_steps epsilon omega delta_chi' st
    = Ok (cycle_result size num_strings delta_chi sigma stretch_factor dilution_power
            num_steps epsilon omega delta_chi' (rng st), st').
Proof.
  intros Hsize Hk. unfold run_cycle.
  (* Phase 1 *)
  destruct (generate_vorticity_grid_run size num_strings delta_chi sigma st)
    as (st1 & Hrun1 & Hstore1 & Hrng1).
  rewrite (run_bind _ _ _ _ _ Hrun1).
  set (grid := length (store st)) in *.
  set (G0 := foam size num_strings delta_chi sigma (rng st)) in *.
  assert (Hgrid1 : store st1 !! grid = Some G0).
  { rewrite Hstore1, lookup_app_r, Nat.sub_diag by (subst grid; lia). reflexivity. }
  rewrite (run_bind _ _ _ _ _ (run_np_sum_ _ _ _ Hgrid1)).
  (* Phase 3 *)
  rewrite (run_bind _ _ _ _ _ (run_load _ _ _ Hgrid1)).
  rewrite (shape_cubic size G0) by apply cubic_foam.
  rewrite (run_bind _ _ _ _ _ (run_np_random_normal _ _)).
  set (st1' := State (store st1) _).
  assert (Hgrid1' : store st1' !! grid = Some G0) by exact Hgrid1.
  rewrite (run_bind _ _ _ _ _ (run_modify _ _ _ _ Hgrid1')).
  set (G1 := reset_field size num_strings delta_chi sigma (rng st)).
  assert (HG1 : add_array G0 (scalar_times 1e-8
             (tabulate3 size size size (λ i j k, rng st1 ((i * size + j) * size + k)%nat)))
           = G1).
  { unfold G1, reset_field, foam_field. fold G0. f_equal. f_equal.
    apply tabulate3_ext. intros i j k _ _ _. apply Hrng1. }
  rewrite HG1.
  set (st2 := set_obj grid G1 st1').
  assert (Hgrid2 : store st2 !! grid = Some G1).
  { eapply store_set_obj, Hgrid1'. }
  (* Phase 4 *)
  rewrite (run_bind _ _ _ _ _
             (inflation_stretch_run st2 grid G1 size stretch_factor dilution_power
                Hgrid2 (cubic_reset_field _) Hsize Hk)).
  set (G2 := stretched G1 size (Z.to_nat stretch_factor)
               (dilution_factor stretch_factor dilution_power)).
  set (st3 := State (store st2 ++ [G2]) (rng st2)).
  set (grid' := length (store st2)).
  assert (Hgrid3 : store st3 !! grid' = Some G2).
  { unfold st3, grid'. cbn [store]. rewrite lookup_app_r, Nat.sub_diag by lia. reflexivity. }
  rewrite (run_bind _ _ _ _ _ (run_np_sum_ _ _ _ Hgrid3)).
  (* Phase 5 *)
  destruct (reheating_oscillations_run epsilon omega delta_chi' grid'
              (size * Z.to_nat stretch_factor) G2 st3 num_steps Hgrid3
              (cubic_stretched _ _ _ _)) as (st4 & Hrun4 & Hstore4 & _).
  rewrite (run_bind _ _ _ _ _ Hrun4).
  set (G3 := oscillated (size * Z.to_nat stretch_factor) epsilon omega delta_chi'
               (rng st3) G2 num_steps) in *.
  assert (HG3 : G3 = reheated_field size num_strings delta_chi sigma stretch_factor
                       dilution_power num_steps epsilon omega delta_chi' (rng st)).
  { unfold G3, reheated_field, stretched_field. fold G1. fold G2.
    apply oscillated_agree. intros i _. unfold st3, st2, st1', skip. cbn [rng set_obj].
    rewrite Hrng1. f_equal. lia. }
  assert (Hgrid4 : store st4 !! grid' = Some G3).
  { rewrite Hstore4. apply list_lookup_insert_eq. eapply lookup_lt_Some, Hgrid3. }
  rewrite (run_bind _ _ _ _ _ (run_np_sum_ _ _ _ Hgrid4)).
  (* Phase 6 *)
  rewrite (run_bind _ _ _ _ _ (run_load _ _ _ Hgrid4)).
  rewrite (shape_cubic (size * Z.to_nat stretch_factor) G3)
    by (apply cubic_oscillated, cubic_stretched).
  exists st4. unfold cycle_result, stretched_field, new_size, np_prod. cbn [fst snd].
  fold G0. fold G1. fold G2. rewrite <- HG3. reflexivity.
Qed.

End CycleRun.

(** ** The Cycle Reducer *)

Section Reducer.

Lemma Rpower_third_cube q : 0 < q → Rpower q (1 / 3) ^ 3 = q.
Proof.
  intros Hq. rewrite <- (Rpower_pow 3) by apply exp_pos.
  rewrite Rpower_mult. replace (1 / 3 * INR 3) with 1 by (simpl; lra).
  apply Rpower_1, Hq.
Qed.

(** [q ** (1/3)] is the cube root of a number that is not negative. *)
Lemma np_power_third q :
  0 <= q → ∃ r, np_power q (1 / 3) = Some r ∧ 0 <= r ∧ r ^ 3 = q.
Proof.
  intros [Hq | <-]; unfold np_power.
  - destruct (Rlt_dec 0 q); [|contradiction].
    exists (Rpower q (1 / 3)). split; [reflexivity|].
    split; [left; apply exp_pos | apply Rpower_third_cube, Hq].
  - destruct (Rlt_dec 0 0); [lra|]. destruct (Req_dec_T 0 0); [|contradiction].
    destruct (Rlt_dec 0 (1 / 3)); [|lra].
    exists 0. split; [reflexivity|]. split; [lra | ring].
Qed.

Lemma compute_lambda_cube_root L V :
  0 < V →
  ∃ r, compute_lambda L V = Some (r * 0.04) ∧ 0 <= r ∧ r ^ 3 = Rabs L / V.
Proof.
  intros HV. unfold compute_lambda, np_divide.
  destruct (Req_dec_T V 0); [lra|].
  assert (Hq : 0 <= Rabs L / V).
  { apply Rmult_le_pos; [apply Rabs_pos | left; apply Rinv_0_lt_compat, HV]. }
  destruct (np_power_third _ Hq) as (r & Hr & Hr0 & Hr3).
  exists r. rewrite Hr. auto.
Qed.

Lemma cube_le (r1 r2 : R) : 0 <= r1 → 0 <= r2 → r1 ^ 3 <= r2 ^ 3 → r1 <= r2.
Proof.
  intros H1 H2 H. destruct (Rle_dec r1 r2) as [|Hn]; [assumption|]. exfalso.
  assert (Hlt : r2 < r1) by lra.
  assert (r2 ^ 3 < r1 ^ 3); [|lra].
  simpl. rewrite !Rmult_1_r.
  assert (r2 * r2 <= r1 * r1) by (apply Rmult_le_compat; lra).
  assert (0 < r1 * r1) by (apply Rmult_lt_0_compat; lra).
  apply Rle_lt_trans with (r2 * (r1 * r1)).
  - apply Rmult_le_compat_l; assumption.
  - apply Rmult_lt_compat_r; assumption.
Qed.

Lemma default_volume :
  INR (new_size 20 4 * new_size 20 4 * new_size 20 4) = 512000.
Proof.
  unfold new_size. rewrite !mult_INR, !INR_IZR_INZ, Z2Nat.id by lia.
  change (Z.of_nat 20) with 20%Z. lra.
Qed.

(** C5. For a positive volume [V], [compute_lambda L V] is [0.04] times the
    cube root of [|L| / V] (the number [r >= 0] with [r^3 = |L| / V]), so it
    is not negative and, for a fixed [V], does not decrease when [|L|] grows;
    [compute_v_peak λ = 220 (λ / 0.04)] is affine (linear) in [λ] with the
    value 220 at 0.04; and in the record that [run_one_cycle] produces the
    rotation and velocity proxies are these functions of the final sum [L]
    and of the number of cells, and the sign label is "+" if [L > 0] and "-"
    otherwise. *)
Theorem reducer_properties :
  (∀ L V, 0 < V →
     ∃ r, 0 <= r ∧ r ^ 3 = Rabs L / V ∧
          compute_lambda L V = Some (r * 0.04) ∧ 0 <= r * 0.04) ∧
  (∀ L1 L2 V lam1 lam2, 0 < V → Rabs L1 <= Rabs L2 →
     compute_lambda L1 V = Some lam1 → compute_lambda L2 V = Some lam2 →
     lam1 <= lam2) ∧
  (∀ lam, compute_v_peak lam = 220 * (lam / 0.04) ∧ compute_v_peak lam = 5500 * lam + 0) ∧
  compute_v_peak 0.04 = 220 ∧
  (∀ st, ∃ res st',
     run_one_cycle st = Ok (res, st') ∧
     lambda res = compute_lambda (net_L_post_reheat res) 512000 ∧
     v_peak res = compute_v_peak <$> lambda res ∧
     helicity res = if Rlt_dec 0 (net_L_post_reheat res) then "+"%string else "-"%string).
Proof.
  split; [|split; [|split; [|split]]].
  - intros L V HV. destruct (compute_lambda_cube_root L V HV) as (r & Hr & Hr0 & Hr3).
    exists r. repeat split; try assumption. lra.
  - intros L1 L2 V lam1 lam2 HV HL H1 H2.
    destruct (compute_lambda_cube_root L1 V HV) as (r1 & Hr1 & Hr10 & Hr13).
    destruct (compute_lambda_cube_root L2 V HV) as (r2 & Hr2 & Hr20 & Hr23).
    rewrite Hr1 in H1. rewrite Hr2 in H2. injection H1 as <-. injection H2 as <-.
    apply Rmult_le_compat_r; [lra|].
    apply cube_le; [assumption ..|]. rewrite Hr13, Hr23.
    apply Rmult_le_compat_r; [left; apply Rinv_0_lt_compat, HV | exact HL].
  - intros lam. unfold compute_v_peak. split; [reflexivity | lra].
  - unfold compute_v_peak. lra.
  - intros st. unfold run_one_cycle.
    destruct (run_cycle_run 20 50 1e-8 1.0 4 3 50 0.01 (0.2 * PI) 1e-8 st) as (st' & Hrun);
      [lia | lia |].
    eexists _, st'. split; [exact Hrun|].
    unfold cycle_result. cbn [lambda v_peak helicity net_L_post_reheat].
    rewrite default_volume. auto.
Qed.

(** The aggregate value -8 on a volume of 1. *)
Lemma reducer_properties_witness :
  ∃ r, 0 <= r ∧ r ^ 3 = Rabs (-8) / 1 ∧
       compute_lambda (-8) 1 = Some (r * 0.04) ∧ 0 <= r * 0.04.
Proof.
  apply (proj1 reducer_properties (-8) 1). lra.
Defined.

End Reducer.

(** * Further properties *)

(** ** More on the Stretch Transform *)

Section StretchMore.

(** X5.  An empty field cannot be stretched, whatever the factor and the
    power: [new_size / old_size] is 0/0 and raises [ZeroDivisionError]. *)
Theorem inflation_stretch_empty_field st (grid : nat) (k p : Z) :
  store st !! grid = Some [] →
  inflation_stretch grid k p st = Raise ZeroDivisionError.
Proof.
  intros Hg. unfold inflation_stretch.
  rewrite (run_bind _ _ _ _ _ (run_load _ _ _ Hg)). cbv zeta.
  change (Z.of_nat (length (@nil (list (list R))))) with 0%Z. rewrite Z.mul_0_l.
  rewrite (run_bind _ _ _ _ _ (run_np_zeros 0 _)).
  apply run_bind_raise. unfold py_truediv.
  destruct (Req_dec_T 0 0); [reflexivity | contradiction].
Qed.

Lemma inflation_stretch_empty_field_witness :
  inflation_stretch 0%nat 4 3 (State [ [] ] (λ _, 0)) = Raise ZeroDivisionError.
Proof.
  apply (inflation_stretch_empty_field (State [ [] ] (λ _, 0)) 0%nat 4 3). reflexivity.
Defined.

(** X6.  A negative stretch factor on a field that is not empty raises
    [ValueError]: [np.zeros] refuses the negative dimensions. *)
Theorem inflation_stretch_negative_factor st (grid : nat) g (k p : Z) :
  store st !! grid = Some g → (0 < length g)%nat → (k < 0)%Z →
  inflation_stretch grid k p st = Raise ValueError.
Proof.
  intros Hg Hlen Hk. unfold inflation_stretch.
  rewrite (run_bind _ _ _ _ _ (run_load _ _ _ Hg)). cbv zeta.
  apply run_bind_raise. unfold np_zeros.
  rewrite decide_True by nia. reflexivity.
Qed.

Lemma inflation_stretch_negative_factor_witness :
  inflation_stretch 0%nat (-2) 3 (State [ [[[8]]] ] (λ _, 0)) = Raise ValueError.
Proof.
  apply (inflation_stretch_negative_factor (State [ [[[8]]] ] (λ _, 0)) 0%nat [[[8]]] (-2) 3).
  - reflexivity.
  - simpl. lia.
  - lia.
Defined.

(** X7.  The factor 0 on a field that is not empty: with the power 0 the
    call returns a new, empty field ([0 ** 0] is 1 and no loop runs); with
    any other power it raises [ZeroDivisionError] ([0 ** p] is 0 for
    [p > 0], and Python refuses [0 ** p] for [p < 0]). *)
Theorem inflation_stretch_zero_factor st (grid : nat) g (p : Z) :
  store st !! grid = Some g → (0 < length g)%nat →
  inflation_stretch grid 0 p st =
    if decide (p = 0%Z)
    then Ok (length (store st), State (store st ++ [ [] ]) (rng st))
    else Raise ZeroDivisionError.
Proof.
  intros Hg Hlen. unfold inflation_stretch.
  rewrite (run_bind _ _ _ _ _ (run_load _ _ _ Hg)). cbv zeta.
  rewrite Z.mul_0_r.
  rewrite (run_bind _ _ _ _ _ (run_np_zeros 0 _)).
  assert (HNz : IZR (Z.of_nat (length g)) ≠ 0) by (apply not_0_IZR; lia).
  rewrite (run_bind _ _ _ _ _ (run_py_truediv _ _ _ HNz)).
  unfold py_pow. destruct (decide (p = 0%Z)) as [-> | Hp].
  - rewrite decide_True by lia.
    erewrite run_bind; [|reflexivity].
    assert (H1 : IZR (0 ^ 0) ≠ 0) by (simpl; lra).
    rewrite (run_bind _ _ _ _ _ (run_py_truediv _ _ _ H1)).
    reflexivity.
  - destruct (decide (0 <= p)%Z) as [Hp0 | Hp0].
    + erewrite run_bind; [|reflexivity].
      apply run_bind_raise. unfold py_truediv.
      rewrite Z.pow_0_l by lia.
      destruct (Req_dec_T 0 0); [reflexivity | contradiction].
    + rewrite decide_True by reflexivity. apply run_bind_raise. reflexivity.
Qed.

Lemma inflation_stretch_zero_factor_witness :
  inflation_stretch 0%nat 0 3 (State [ [[[8]]] ] (λ _, 0)) =
    if decide (3%Z = 0%Z)
    then Ok (1%nat, State ([ [[[8]]] ] ++ [ [] ]) (λ _, 0))
    else Raise ZeroDivisionError.
Proof.
  apply (inflation_stretch_zero_factor (State [ [[[8]]] ] (λ _, 0)) 0%nat [[[8]]] 3).
  - reflexivity.
  - simpl. lia.
Defined.

(** X8.  A successful call consumes no random draw, creates exactly one
    array object and leaves every existing array object as it was. *)
Theorem inflation_stretch_frame st (grid : nat) g (N : nat) (k p : Z) :
  store st !! grid = Some g → cubic N g → (0 < N)%nat → (0 < k)%Z →
  ∃ st',
    inflation_stretch grid k p st = Ok (length (store st), st') ∧
    rng st' = rng st ∧
    length (store st') = S (length (store st)) ∧
    (∀ r a, store st !! r = Some a → store st' !! r = Some a).
Proof.
  intros Hg Hcub HN Hk. eexists.
  split; [apply (inflation_stretch_run st grid g N k p); assumption|].
  cbn [store rng]. split; [reflexivity|]. split.
  - rewrite length_app. simpl. lia.
  - intros r a Hr. apply lookup_app_l_Some, Hr.
Qed.

Lemma inflation_stretch_frame_witness :
  ∃ st',
    inflation_stretch 0%nat 2 3 (State [ [[[8]]] ] (λ _, 0)) = Ok (1%nat, st') ∧
    rng st' = (λ _, 0) ∧
    length (store st') = 2%nat ∧
    (∀ r a, [ [[[8]]] ] !! r = Some a → store st' !! r = Some a).
Proof.
  apply (inflation_stretch_frame (State [ [[[8]]] ] (λ _, 0)) 0%nat [[[8]]] 1%nat 2 3).
  - reflexivity.
  - split; [reflexivity|]. repeat constructor.
  - lia.
  - lia.
Defined.

End StretchMore.

(** ** The Stretch Transform on arrays that are not cubic *)



Section StretchShape.

Variables (grid new_grid : nat) (g : ndarray) (k side : nat) (dil : R).
Hypothesis Hk : (0 < k)%nat.
Hypothesis Hne : grid ≠ new_grid.






End StretchShape.

Section StretchShapeCalls.







End StretchShapeCalls.

(** ** More on the Oscillation Transform *)

Section OscillationMore.

Lemma scale_array_1 n g : cubic n g → scale_array g 1 = g.
Proof.
  intros Hg. rewrite (scale_array_as_tabulate3 n g 1 Hg). symmetry.
  apply array_eq_tabulate; [exact Hg|]. intros i j k Hi Hj Hk.
  destruct (getitem_in_range _ _ _ g i j k Hg Hi Hj Hk) as [v ->]. simpl. f_equal. lra.
Qed.

Lemma gain_pos epsilon omega s : Rabs epsilon < 1 → 0 < gain epsilon omega s.
Proof.
  intros He. unfold gain.
  pose proof (COS_bound (omega * (INR s * 0.1))) as [Hlo Hhi].
  apply Rabs_def2 in He as [He1 He2].
  set (c := cos _) in *.
  assert (H1 : 0 <= (1 + epsilon) * (1 + c)) by (apply Rmult_le_pos; lra).
  assert (H2 : 0 <= (1 - epsilon) * (1 - c)) by (apply Rmult_le_pos; lra).
  destruct (Rle_dec 0 c) as [Hc | Hc].
  - assert (0 < (1 + epsilon) * (1 + c)) by (apply Rmult_lt_0_compat; lra). lra.
  - assert (0 < (1 - epsilon) * (1 - c)) by (apply Rmult_lt_0_compat; lra). lra.
Qed.

(** Without injection a step only multiplies. *)
Lemma oscillated_scaled_in_steps n epsilon omega draws g m :
  cubic n g →
  oscillated n epsilon omega 0 draws g m = scaled_in_steps epsilon omega g m.
Proof.
  intros Hg. unfold scaled_in_steps. induction m as [|m IH]; [reflexivity|].
  rewrite seq_S, foldl_app. cbn [foldl Nat.add oscillated]. rewrite <- IH.
  rewrite (scale_array_as_tabulate3 n _ _ (cubic_oscillated epsilon omega 0 n draws g m Hg)).
  unfold oscillation_step. apply tabulate3_ext. intros i j k _ _ _.
  unfold injection_scale. ring.
Qed.

(** X11.  With [delta_chi = 0] the call multiplies the field, step after
    step, by the gain of each step, whatever the random source holds; it
    still consumes [n^3] draws at each step; and for [|ε| < 1] every gain is
    positive. *)
Theorem reheating_without_injection (epsilon omega : R) (grid : nat) n g st (num_steps : nat) :
  store st !! grid = Some g → cubic n g →
  (∃ st',
     reheating_oscillations grid num_steps epsilon omega 0 st = Ok (grid, st') ∧
     store st' = <[grid := scaled_in_steps epsilon omega g num_steps]> (store st) ∧
     (∀ m, rng st' m = rng st (num_steps * (n * n * n) + m)%nat)) ∧
  (Rabs epsilon < 1 → ∀ s, 0 < gain epsilon omega s).
Proof.
  intros Hgrid Hg. split; [|intros He s; apply gain_pos, He].
  destruct (reheating_oscillations_run epsilon omega 0 grid n g st num_steps Hgrid Hg)
    as (st' & Hrun & Hstore & Hrng).
  exists st'. split; [exact Hrun|]. split; [|exact Hrng].
  rewrite Hstore, (oscillated_scaled_in_steps n) by exact Hg. reflexivity.
Qed.

(** A field of side 1, two steps, ε = 1/2. *)
Lemma reheating_without_injection_witness :
  (∃ st',
    reheating_oscillations 0%nat 2 (1/2) 1 0 (State [ [[[8]]] ] (λ i, INR i)) = Ok (0%nat, st') ∧
    store st' = <[0%nat := scaled_in_steps (1/2) 1 [[[8]]] 2]> [ [[[8]]] ] ∧
    (∀ m, rng st' m = INR (2 * (1 * 1 * 1) + m))) ∧
  (∀ s, 0 < gain (1/2) 1 s).
Proof.
  destruct (reheating_without_injection (1/2) 1 0%nat 1%nat [[[8]]]
              (State [ [[[8]]] ] (λ i, INR i)) 2) as [Hrun Hgain].
  - reflexivity.
  - split; [reflexivity|]. repeat constructor.
  - split; [exact Hrun|]. apply Hgain. unfold Rabs. destruct Rcase_abs; lra.
Defined.

Lemma scaled_in_steps_neutral n omega g m :
  cubic n g → scaled_in_steps 0 omega g m = g.
Proof.
  intros Hg. unfold scaled_in_steps. induction m as [|m IH]; [reflexivity|].
  rewrite seq_S, foldl_app. cbn [foldl Nat.add]. rewrite IH.
  replace (gain 0 omega m) with 1 by (unfold gain; ring).
  apply (scale_array_1 n), Hg.
Qed.

(** X12.  With [epsilon = 0] and [delta_chi = 0] the call changes no array
    (every step multiplies by 1 and adds 0), but the random source has
    advanced by [n^3] draws for each step. *)
Theorem reheating_neutral (omega : R) (grid : nat) n g st (num_steps : nat) :
  store st !! grid = Some g → cubic n g →
  ∃ st',
    reheating_oscillations grid num_steps 0 omega 0 st = Ok (grid, st') ∧
    store st' = store st ∧
    (∀ m, rng st' m = rng st (num_steps * (n * n * n) + m)%nat).
Proof.
  intros Hgrid Hg.
  destruct (reheating_oscillations_run 0 omega 0 grid n g st num_steps Hgrid Hg)
    as (st' & Hrun & Hstore & Hrng).
  exists st'. split; [exact Hrun|]. split; [|exact Hrng].
  rewrite Hstore, (oscillated_scaled_in_steps n), (scaled_in_steps_neutral n) by exact Hg.
  apply list_insert_id, Hgrid.
Qed.

Lemma reheating_neutral_witness :
  ∃ st',
    reheating_oscillations 0%nat 2 0 1 0 (State [ [[[8]]] ] (λ i, INR i)) = Ok (0%nat, st') ∧
    store st' = [ [[[8]]] ] ∧
    (∀ m, rng st' m = INR (2 * (1 * 1 * 1) + m)).
Proof.
  apply (reheating_neutral 1 0%nat 1%nat [[[8]]] (State [ [[[8]]] ] (λ i, INR i)) 2).
  - reflexivity.
  - split; [reflexivity|]. repeat constructor.
Defined.

End OscillationMore.

(** ** More on the Foam Generator *)

Section FoamMore.

Variables (size num_strings : nat) (delta_chi sigma : R).

(** X18.  A call that returns has consumed exactly seven draws for each
    string, whatever their values, has left every existing array object as
    it was, and returns an array object that did not exist before. *)
Theorem generate_vorticity_grid_frame st r st' :
  generate_vorticity_grid size num_strings delta_chi sigma st = Ok (r, st') →
  (∀ m, rng st' m = rng st (7 * num_strings + m)%nat) ∧
  (∀ r' a, store st !! r' = Some a → store st' !! r' = Some a) ∧
  store st !! r = None.
Proof.
  intros Hcall.
  destruct (generate_vorticity_grid_run size num_strings delta_chi sigma st)
    as (st1 & Hrun & Hstore & Hrng).
  rewrite Hrun in Hcall. injection Hcall as <- <-.
  split; [exact Hrng|]. rewrite Hstore. split.
  - intros r' a Hr'. apply lookup_app_l_Some, Hr'.
  - apply lookup_ge_None. lia.
Qed.

Lemma point_to_line_dist_nonneg p a b d : point_to_line_dist p a b = Some d → 0 <= d.
Proof.
  unfold point_to_line_dist. destruct (np_clip _ 0 1); [|discriminate].
  intros H. injection H as <-. apply sqrt_pos.
Qed.

Lemma kernel_bound chi x1 x2 (x : index) : Rabs (kernel sigma chi x1 x2 x) <= Rabs chi.
Proof.
  unfold kernel.
  destruct (point_to_line_dist _ x1 x2) as [d|] eqn:Hd; [|rewrite Rabs_R0; apply Rabs_pos].
  destruct (Rlt_dec d (3 * sigma)) as [Hlt|]; [|rewrite Rabs_R0; apply Rabs_pos].
  apply point_to_line_dist_nonneg in Hd.
  assert (Hs : 0 < sigma) by lra.
  rewrite Rabs_mult, (Rabs_right (exp _)) by (left; apply exp_pos).
  rewrite <- (Rmult_1_r (Rabs chi)) at 2.
  apply Rmult_le_compat_l; [apply Rabs_pos|].
  rewrite <- exp_0. 
  assert (He : - d ^ 2 / (2 * sigma ^ 2) <= 0).
  { assert (0 < 2 * sigma ^ 2) by (simpl; nra).
    assert (0 <= d ^ 2 / (2 * sigma ^ 2)).
    { apply Rmult_le_pos; [simpl; nra | left; apply Rinv_0_lt_compat; assumption]. }
    unfold Rdiv in *. lra. }
  destruct He as [He | ->]; [left; apply exp_increasing, He | right; reflexivity].
Qed.

Lemma kernel_sign chi x1 x2 (x : index) :
  (0 <= chi → 0 <= kernel sigma chi x1 x2 x) ∧ (chi <= 0 → kernel sigma chi x1 x2 x <= 0).
Proof.
  unfold kernel.
  destruct (point_to_line_dist _ x1 x2) as [d|]; [|lra].
  destruct (Rlt_dec d (3 * sigma)); [|lra].
  pose proof (exp_pos (- d ^ 2 / (2 * sigma ^ 2))). split; intros; nra.
Qed.

Lemma string_chi_abs draws s : Rabs (string_chi delta_chi draws s) = 1.
Proof.
  unfold string_chi. destruct (Rlt_dec _ _); unfold Rabs; destruct Rcase_abs; lra.
Qed.

Lemma sumR_abs_bound {A} (f : A → R) (c : R) (l : list A) :
  (∀ a, a ∈ l → Rabs (f a) <= c) → Rabs (sumR (f <$> l)) <= INR (length l) * c.
Proof.
  induction l as [|a l IH]; intros H.
  - unfold sumR. simpl. rewrite Rabs_R0. lra.
  - cbn [fmap list_fmap length]. rewrite S_INR. unfold sumR in *. cbn [foldr].
    change (list_fmap A R f l) with (f <$> l).
    eapply Rle_trans; [apply Rabs_triang|].
    specialize (IH ltac:(intros; apply H, elem_of_cons; right; assumption)).
    specialize (H a ltac:(apply elem_of_cons; left; reflexivity)). lra.
Qed.

Lemma sumR_nonneg {A} (f : A → R) (l : list A) :
  (∀ a, a ∈ l → 0 <= f a) → 0 <= sumR (f <$> l).
Proof.
  induction l as [|a l IH]; intros H.
  - unfold sumR. simpl. lra.
  - cbn [fmap list_fmap]. unfold sumR in *. cbn [foldr].
    change (list_fmap A R f l) with (f <$> l).
    specialize (IH ltac:(intros; apply H, elem_of_cons; right; assumption)).
    specialize (H a ltac:(apply elem_of_cons; left; reflexivity)). lra.
Qed.

Lemma sumR_nonpos {A} (f : A → R) (l : list A) :
  (∀ a, a ∈ l → f a <= 0) → sumR (f <$> l) <= 0.
Proof.
  induction l as [|a l IH]; intros H.
  - unfold sumR. simpl. lra.
  - cbn [fmap list_fmap]. unfold sumR in *. cbn [foldr].
    change (list_fmap A R f l) with (f <$> l).
    specialize (IH ltac:(intros; apply H, elem_of_cons; right; assumption)).
    specialize (H a ltac:(apply elem_of_cons; left; reflexivity)). lra.
Qed.

Lemma sample_contribution_cases chi x1 x2 center (x : index) :
  sample_contribution size sigma chi x1 x2 center x = kernel sigma chi x1 x2 x ∨
  sample_contribution size sigma chi x1 x2 center x = 0.
Proof. unfold sample_contribution. destruct (decide _); auto. Qed.

Lemma string_contribution_bound draws s (x : index) :
  Rabs (string_contribution size delta_chi sigma draws s x) <= 10.
Proof.
  unfold string_contribution. cbv zeta.
  eapply Rle_trans; [apply (sumR_abs_bound _ 1)|].
  - intros t _.
    destruct (sample_contribution_cases (string_chi delta_chi draws s)
                (string_x1 size draws s) (string_x2 size draws s)
                (vadd (string_x1 size draws s)
                   (vscale t (vsub (string_x2 size draws s) (string_x1 size draws s)))) x)
      as [-> | ->].
    + rewrite <- (string_chi_abs draws s). apply kernel_bound.
    + rewrite Rabs_R0. lra.
  - unfold np_linspace. rewrite length_fmap, length_seq. simpl. lra.
Qed.

(** The cell of the returned field, as a sum over the strings. *)
Lemma generate_vorticity_grid_cell st i j k :
  (i < size)%nat → (j < size)%nat → (k < size)%nat →
  ∃ st',
    generate_vorticity_grid size num_strings delta_chi sigma st
      = Ok (length (store st), st') ∧
    store st' !! length (store st) = Some (foam size num_strings delta_chi sigma (rng st)) ∧
    getitem (foam size num_strings delta_chi sigma (rng st)) (i, j, k) =
      Some (sumR (tabulate num_strings (λ s,
              string_contribution size delta_chi sigma (rng st) s (i, j, k)))).
Proof.
  intros Hi Hj Hk.
  destruct (generate_vorticity_grid_run size num_strings delta_chi sigma st)
    as (st' & Hrun & Hstore & _).
  exists st'. split; [exact Hrun|]. split.
  - rewrite Hstore, lookup_app_r, Nat.sub_diag by lia. reflexivity.
  - unfold foam. apply getitem_tabulate3; assumption.
Qed.

(** X19.  Every cell of the returned field lies between [-10 num_strings]
    and [10 num_strings]: each of the ten sample points of a string adds at
    most one kernel value, of absolute value at most 1. *)
Theorem generate_vorticity_grid_bounded st i j k :
  (i < size)%nat → (j < size)%nat → (k < size)%nat →
  ∃ G st' v,
    generate_vorticity_grid size num_strings delta_chi sigma st
      = Ok (length (store st), st') ∧
    store st' !! length (store st) = Some G ∧
    getitem G (i, j, k) = Some v ∧
    Rabs v <= 10 * INR num_strings.
Proof.
  intros Hi Hj Hk.
  destruct (generate_vorticity_grid_cell st i j k Hi Hj Hk) as (st' & Hrun & Hst & Hcell).
  eexists _, st', _. split; [exact Hrun|]. split; [exact Hst|]. split; [exact Hcell|].
  unfold tabulate.
  eapply Rle_trans; [apply (sumR_abs_bound _ 10)|].
  - intros s _. apply string_contribution_bound.
  - rewrite length_seq. lra.
Qed.

Lemma kernel_zero_far chi x1 x2 (x : index) :
  (∀ d, point_to_line_dist (Vec3 (INR x.1.1) (INR x.1.2) (INR x.2)) x1 x2 = Some d →
        3 * sigma <= d) →
  kernel sigma chi x1 x2 x = 0.
Proof.
  intros H. unfold kernel.
  destruct (point_to_line_dist _ x1 x2) as [d|]; [|reflexivity].
  specialize (H d eq_refl). destruct (Rlt_dec d (3 * sigma)); [lra | reflexivity].
Qed.

Lemma string_contribution_zero draws s (x : index) :
  kernel sigma (string_chi delta_chi draws s) (string_x1 size draws s)
    (string_x2 size draws s) x = 0 →
  string_contribution size delta_chi sigma draws s x = 0.
Proof.
  intros H. unfold string_contribution. cbv zeta.
  rewrite (sumR_const _ 0); [lra|].
  intros t _. unfold sample_contribution. rewrite H. destruct (decide _); reflexivity.
Qed.

Lemma strings_sum_zero draws (x : index) :
  (∀ s, (s < num_strings)%nat →
     kernel sigma (string_chi delta_chi draws s) (string_x1 size draws s)
       (string_x2 size draws s) x = 0) →
  sumR (tabulate num_strings (λ s, string_contribution size delta_chi sigma draws s x)) = 0.
Proof.
  intros H. unfold tabulate. rewrite (sumR_const _ 0); [lra|].
  intros s Hs. apply elem_of_seq in Hs. apply string_contribution_zero, H. lia.
Qed.

(** X20.  With [sigma <= 0] no distance is less than [3 sigma]: the
    generator returns the zero field, whatever the random source holds (and
    still consumes its draws). *)
Theorem generate_vorticity_grid_sigma_not_positive st :
  sigma <= 0 →
  ∃ st',
    generate_vorticity_grid size num_strings delta_chi sigma st
      = Ok (length (store st), st') ∧
    store st' !! length (store st) = Some (zeros size size size).
Proof.
  intros Hs.
  destruct (generate_vorticity_grid_run size num_strings delta_chi sigma st)
    as (st' & Hrun & Hstore & _).
  exists st'. split; [exact Hrun|].
  rewrite Hstore, lookup_app_r, Nat.sub_diag by lia. cbn [lookup list_lookup]. f_equal.
  apply tabulate3_ext. intros i j k _ _ _.
  apply strings_sum_zero. intros s _. apply kernel_zero_far.
  intros d Hd. apply point_to_line_dist_nonneg in Hd. lra.
Qed.

(** X21.  A cell that is at a distance of [3 sigma] or more from every
    string is 0 in the returned field; a string whose end points coincide
    (its distance is a NaN) contributes to no cell. *)
Theorem generate_vorticity_grid_far_cell st i j k :
  (i < size)%nat → (j < size)%nat → (k < size)%nat →
  (∀ s d, (s < num_strings)%nat →
     point_to_line_dist (Vec3 (INR i) (INR j) (INR k))
       (string_x1 size (rng st) s) (string_x2 size (rng st) s) = Some d →
     3 * sigma <= d) →
  ∃ G st',
    generate_vorticity_grid size num_strings delta_chi sigma st
      = Ok (length (store st), st') ∧
    store st' !! length (store st) = Some G ∧
    getitem G (i, j, k) = Some 0.
Proof.
  intros Hi Hj Hk Hfar.
  destruct (generate_vorticity_grid_cell st i j k Hi Hj Hk) as (st' & Hrun & Hst & Hcell).
  eexists _, st'. split; [exact Hrun|]. split; [exact Hst|].
  rewrite Hcell. f_equal. apply strings_sum_zero.
  intros s Hs. apply kernel_zero_far. intros d Hd. apply (Hfar s d Hs Hd).
Qed.

Lemma string_contribution_sign draws s (x : index) :
  (0 <= string_chi delta_chi draws s →
     0 <= string_contribution size delta_chi sigma draws s x) ∧
  (string_chi delta_chi draws s <= 0 →
     string_contribution size delta_chi sigma draws s x <= 0).
Proof.
  unfold string_contribution. cbv zeta. split; intros Hchi.
  - apply sumR_nonneg. intros t _. unfold sample_contribution.
    destruct (decide _); [|lra]. apply kernel_sign, Hchi.
  - apply sumR_nonpos. intros t _. unfold sample_contribution.
    destruct (decide _); [|lra]. apply kernel_sign, Hchi.
Qed.

(** X22.  The sign of the field follows the handedness: if the handedness
    draw of every string is below the bias [0.5 + delta_chi / 2] (all
    strings right-handed) no cell is negative, and if none is below it (all
    left-handed) no cell is positive. *)
Theorem generate_vorticity_grid_sign st i j k :
  (i < size)%nat → (j < size)%nat → (k < size)%nat →
  ∃ G st' v,
    generate_vorticity_grid size num_strings delta_chi sigma st
      = Ok (length (store st), st') ∧
    store st' !! length (store st) = Some G ∧
    getitem G (i, j, k) = Some v ∧
    ((∀ s, (s < num_strings)%nat → rng st (7 * s + 6)%nat < 0.5 + delta_chi / 2) → 0 <= v) ∧
    ((∀ s, (s < num_strings)%nat → ¬ rng st (7 * s + 6)%nat < 0.5 + delta_chi / 2) → v <= 0).
Proof.
  intros Hi Hj Hk.
  destruct (generate_vorticity_grid_cell st i j k Hi Hj Hk) as (st' & Hrun & Hst & Hcell).
  eexists _, st', _. split; [exact Hrun|]. split; [exact Hst|]. split; [exact Hcell|].
  unfold tabulate. split; intros H.
  - apply sumR_nonneg. intros s Hs. apply elem_of_seq in Hs.
    apply string_contribution_sign. unfold string_chi.
    destruct (Rlt_dec _ _) as [|Hn]; [lra|]. exfalso. apply Hn, H. lia.
  - apply sumR_nonpos. intros s Hs. apply elem_of_seq in Hs.
    apply string_contribution_sign. unfold string_chi.
    destruct (Rlt_dec _ _) as [Hlt|]; [|lra]. exfalso. apply (H s); [lia | exact Hlt].
Qed.

End FoamMore.

Lemma generate_vorticity_grid_bounded_witness :
  ∃ G st' v,
    generate_vorticity_grid 1 2 0 1 (State [] (λ i, INR i / 10)) = Ok (0%nat, st') ∧
    store st' !! 0%nat = Some G ∧
    getitem G (0, 0, 0)%nat = Some v ∧
    Rabs v <= 10 * INR 2.
Proof.
  apply (generate_vorticity_grid_bounded 1 2 0 1 (State [] (λ i, INR i / 10)) 0 0 0); lia.
Defined.

Lemma generate_vorticity_grid_sigma_not_positive_witness :
  ∃ st',
    generate_vorticity_grid 1 2 0 0 (State [] (λ i, INR i / 10)) = Ok (0%nat, st') ∧
    store st' !! 0%nat = Some (zeros 1 1 1).
Proof.
  apply (generate_vorticity_grid_sigma_not_positive 1 2 0 0 (State [] (λ i, INR i / 10))).
  lra.
Defined.

Lemma generate_vorticity_grid_far_cell_witness :
  ∃ G st',
    generate_vorticity_grid 1 2 0 0 (State [] (λ i, INR i / 10)) = Ok (0%nat, st') ∧
    store st' !! 0%nat = Some G ∧
    getitem G (0, 0, 0)%nat = Some 0.
Proof.
  apply (generate_vorticity_grid_far_cell 1 2 0 0 (State [] (λ i, INR i / 10)) 0 0 0);
    [lia | lia | lia |].
  intros s d _ Hd. apply point_to_line_dist_nonneg in Hd. lra.
Defined.

(** Two strings on a lattice of one cell, with one array object alive. *)
Lemma generate_vorticity_grid_frame_witness :
  ∃ r st',
    generate_vorticity_grid 1 2 0 1 (State [zeros 1 1 1] (λ i, INR i / 10)) = Ok (r, st') ∧
    (∀ m, rng st' m = INR (7 * 2 + m) / 10) ∧
    (∀ r' a, [zeros 1 1 1] !! r' = Some a → store st' !! r' = Some a) ∧
    [zeros 1 1 1] !! r = None.
Proof.
  destruct (generate_vorticity_grid_run 1 2 0 1 (State [zeros 1 1 1] (λ i, INR i / 10)))
    as (st' & Hrun & _).
  exists 1%nat, st'. split; [exact Hrun|].
  exact (generate_vorticity_grid_frame 1 2 0 1 (State [zeros 1 1 1] (λ i, INR i / 10))
           1%nat st' Hrun).
Defined.

Lemma unit_string_chi_right : string_chi 0 (unit_draws 0) 0 = 1.
Proof.
  unfold string_chi, unit_draws. simpl.
  destruct (Rlt_dec 0 (0.5 + 0 / 2)); [reflexivity | lra].
Qed.

Lemma unit_string_chi_left : string_chi 0 (unit_draws 1) 0 = -1.
Proof.
  unfold string_chi, unit_draws. simpl.
  destruct (Rlt_dec 1 (0.5 + 0 / 2)); [lra | reflexivity].
Qed.

(** The cell of the lattice of one cell after the generator has run on one
    such string. *)
Lemma unit_cell_value c G st' v :
  generate_vorticity_grid 1 1 0 1 (State [] (unit_draws c)) = Ok (0%nat, st') →
  store st' !! 0%nat = Some G → getitem G (0, 0, 0)%nat = Some v →
  ∃ P, 0 < P ∧ v = string_chi 0 (unit_draws c) 0 * P.
Proof.
  intros Hrun HG Hv.
  destruct (generate_vorticity_grid_cell 1 1 0 1 (State [] (unit_draws c)) 0 0 0)
    as (st1 & Hrun1 & HG1 & Hv1); [lia ..|].
  rewrite Hrun1 in Hrun. injection Hrun as <-.
  cbn [store length] in HG1. rewrite HG1 in HG. injection HG as HG. subst G.
  cbn [rng] in Hv1. rewrite Hv1 in Hv. injection Hv as Hv. subst v.
  destruct (unit_string_contribution c) as (P & HP & HPeq).
  exists P. split; [exact HP|]. rewrite <- HPeq.
  unfold tabulate, sumR. simpl. lra.
Qed.

(** One string on a lattice of one cell, right-handed and then
    left-handed: the cell is positive in the first field and negative in
    the second. *)
Lemma generate_vorticity_grid_sign_witness :
  (∃ G st' v,
     generate_vorticity_grid 1 1 0 1 (State [] (unit_draws 0)) = Ok (0%nat, st') ∧
     store st' !! 0%nat = Some G ∧
     getitem G (0, 0, 0)%nat = Some v ∧ 0 <= v ∧ v ≠ 0) ∧
  (∃ G st' v,
     generate_vorticity_grid 1 1 0 1 (State [] (unit_draws 1)) = Ok (0%nat, st') ∧
     store st' !! 0%nat = Some G ∧
     getitem G (0, 0, 0)%nat = Some v ∧ v <= 0 ∧ v ≠ 0).
Proof.
  split.
  - destruct (generate_vorticity_grid_sign 1 1 0 1 (State [] (unit_draws 0)) 0 0 0)
      as (G & st' & v & Hrun & HG & Hv & Hright & _); [lia ..|].
    exists G, st', v. split; [exact Hrun|]. split; [exact HG|]. split; [exact Hv|].
    split.
    + apply Hright. intros s Hs. replace s with 0%nat by lia.
      unfold unit_draws. simpl. lra.
    + destruct (unit_cell_value 0 G st' v Hrun HG Hv) as (P & HP & ->).
      rewrite unit_string_chi_right. lra.
  - destruct (generate_vorticity_grid_sign 1 1 0 1 (State [] (unit_draws 1)) 0 0 0)
      as (G & st' & v & Hrun & HG & Hv & _ & Hleft); [lia ..|].
    exists G, st', v. split; [exact Hrun|]. split; [exact HG|]. split; [exact Hv|].
    split.
    + apply Hleft. intros s Hs. replace s with 0%nat by lia.
      unfold unit_draws. simpl. lra.
    + destruct (unit_cell_value 1 G st' v Hrun HG Hv) as (P & HP & ->).
      rewrite unit_string_chi_left. lra.
Defined.

(** ** More on the Cycle Driver *)

Section CycleMore.

Variables (size num_strings : nat) (delta_chi sigma : R).
Variables (stretch_factor dilution_power : Z).
Variables (num_steps : nat) (epsilon omega delta_chi' : R).

(** One cycle, with the state it leaves: two new array objects (the foam
    after the reset injection and the reheated field) and a random source
    advanced by [draws_used]. *)
Lemma run_cycle_state st :
  (0 < size)%nat → (0 < stretch_factor)%Z →
  ∃ st',
    run_cycle size num_strings delta_chi sigma stretch_factor dilution_power
      num_steps epsilon omega delta_chi' st
    = Ok (cycle_result size num_strings delta_chi sigma stretch_factor dilution_power
            num_steps epsilon omega delta_chi' (rng st), st') ∧
    store st' = store st ++
      [reset_field size num_strings delta_chi sigma (rng st);
       reheated_field size num_strings delta_chi sigma stretch_factor dilution_power
         num_steps epsilon omega delta_chi' (rng st)] ∧
    (∀ m, rng st' m =
          rng st (draws_used size num_strings stretch_factor num_steps + m)%nat).
Proof.
  intros Hsize Hk. unfold run_cycle.
  destruct (generate_vorticity_grid_run size num_strings delta_chi sigma st)
    as (st1 & Hrun1 & Hstore1 & Hrng1).
  rewrite (run_bind _ _ _ _ _ Hrun1).
  set (grid := length (store st)) in *.
  set (G0 := foam size num_strings delta_chi sigma (rng st)) in *.
  assert (Hgrid1 : store st1 !! grid = Some G0).
  { rewrite Hstore1, lookup_app_r, Nat.sub_diag by (subst grid; lia). reflexivity. }
  rewrite (run_bind _ _ _ _ _ (run_np_sum_ _ _ _ Hgrid1)).
  rewrite (run_bind _ _ _ _ _ (run_load _ _ _ Hgrid1)).
  rewrite (shape_cubic size G0) by apply cubic_foam.
  rewrite (run_bind _ _ _ _ _ (run_np_random_normal _ _)).
  set (st1' := State (store st1) _).
  assert (Hgrid1' : store st1' !! grid = Some G0) by exact Hgrid1.
  rewrite (run_bind _ _ _ _ _ (run_modify _ _ _ _ Hgrid1')).
  set (G1 := reset_field size num_strings delta_chi sigma (rng st)).
  assert (HG1 : add_array G0 (scalar_times 1e-8
             (tabulate3 size size size (λ i j k, rng st1 ((i * size + j) * size + k)%nat)))
           = G1).
  { unfold G1, reset_field, foam_field. fold G0. f_equal. f_equal.
    apply tabulate3_ext. intros i j k _ _ _. apply Hrng1. }
  rewrite HG1.
  set (st2 := set_obj grid G1 st1').
  assert (Hgrid2 : store st2 !! grid = Some G1).
  { eapply store_set_obj, Hgrid1'. }
  assert (Hstore2 : store st2 = store st ++ [G1]).
  { unfold st2, st1', set_obj. cbn [store]. rewrite Hstore1.
    rewrite insert_app_r_alt by (subst grid; lia).
    unfold grid. rewrite Nat.sub_diag. reflexivity. }
  rewrite (run_bind _ _ _ _ _
             (inflation_stretch_run st2 grid G1 size stretch_factor dilution_power
                Hgrid2 (cubic_reset_field _ _ _ _ _) Hsize Hk)).
  set (G2 := stretched G1 size (Z.to_nat stretch_factor)
               (dilution_factor stretch_factor dilution_power)).
  set (st3 := State (store st2 ++ [G2]) (rng st2)).
  set (grid' := length (store st2)).
  assert (Hgrid3 : store st3 !! grid' = Some G2).
  { unfold st3, grid'. cbn [store]. rewrite lookup_app_r, Nat.sub_diag by lia. reflexivity. }
  rewrite (run_bind _ _ _ _ _ (run_np_sum_ _ _ _ Hgrid3)).
  destruct (reheating_oscillations_run epsilon omega delta_chi' grid'
              (size * Z.to_nat stretch_factor) G2 st3 num_steps Hgrid3
              (cubic_stretched _ _ _ _)) as (st4 & Hrun4 & Hstore4 & Hrng4).
  rewrite (run_bind _ _ _ _ _ Hrun4).
  set (G3 := oscillated (size * Z.to_nat stretch_factor) epsilon omega delta_chi'
               (rng st3) G2 num_steps) in *.
  assert (HG3 : G3 = reheated_field size num_strings delta_chi sigma stretch_factor
                       dilution_power num_steps epsilon omega delta_chi' (rng st)).
  { unfold G3, reheated_field, stretched_field. fold G1. fold G2.
    apply oscillated_agree. intros i _. unfold st3, st2, st1', skip. cbn [rng set_obj].
    rewrite Hrng1. f_equal. lia. }
  assert (Hgrid4 : store st4 !! grid' = Some G3).
  { rewrite Hstore4. apply list_lookup_insert_eq. eapply lookup_lt_Some, Hgrid3. }
  rewrite (run_bind _ _ _ _ _ (run_np_sum_ _ _ _ Hgrid4)).
  rewrite (run_bind _ _ _ _ _ (run_load _ _ _ Hgrid4)).
  rewrite (shape_cubic (size * Z.to_nat stretch_factor) G3)
    by (apply cubic_oscillated, cubic_stretched).
  exists st4. split; [|split].
  - unfold cycle_result, stretched_field, new_size, np_prod. cbn [fst snd].
    fold G0. fold G1. fold G2. rewrite <- HG3. reflexivity.
  - rewrite Hstore4, <- HG3. unfold st3, grid'. cbn [store]. rewrite Hstore2.
    rewrite insert_app_r_alt by lia. rewrite Nat.sub_diag.
    rewrite <- app_assoc. reflexivity.
  - intros m. rewrite Hrng4. unfold st3, st2, st1', draws_used, new_size.
    cbn [rng set_obj]. rewrite Hrng1. f_equal. lia.
Qed.

End CycleMore.

(** X23.  One cycle runs to completion, consumes exactly
    [7 * 50 + 20^3 + 50 * 80^3] draws and leaves every existing array object
    as it was. *)
Theorem run_one_cycle_frame st :
  ∃ res st',
    run_one_cycle st = Ok (res, st') ∧
    (∀ r a, store st !! r = Some a → store st' !! r = Some a) ∧
    (∀ m, rng st' m = rng st (7 * 50 + 20 * 20 * 20 + 50 * (80 * 80 * 80) + m)%nat).
Proof.
  unfold run_one_cycle.
  destruct (run_cycle_state 20 50 1e-8 1.0 4 3 50 0.01 (0.2 * PI) 1e-8 st)
    as (st' & Hrun & Hstore & Hrng); [lia | lia |].
  eexists _, st'. split; [exact Hrun|]. split; [|exact Hrng].
  intros r a Hr. rewrite Hstore. apply lookup_app_l_Some, Hr.
Qed.

Lemma for_acc_seq_inv {S} (I : nat → S → state → Prop) (body : nat → S → M S) n :
  (∀ c acc st, (c < n)%nat → I c acc st →
     ∃ acc' st', body c acc st = Ok (acc', st') ∧ I (Datatypes.S c) acc' st') →
  ∀ acc st, I 0%nat acc st →
    ∃ acc' st', for_acc (seq 0 n) body acc st = Ok (acc', st') ∧ I n acc' st'.
Proof.
  intros Hbody.
  assert (Hgen : ∀ m a acc st, (a + m = n)%nat → I a acc st →
            ∃ acc' st', for_acc (seq a m) body acc st = Ok (acc', st') ∧ I n acc' st').
  { induction m as [|m IH]; intros a acc st Ham Ha.
    - exists acc, st. simpl. replace n with a by lia. split; [reflexivity | exact Ha].
    - destruct (Hbody a acc st ltac:(lia) Ha) as (acc1 & st1 & Hrun & H1).
      destruct (IH (Datatypes.S a) acc1 st1 ltac:(lia) H1) as (acc2 & st2 & Hrun2 & H2).
      exists acc2, st2. split; [|exact H2]. simpl.
      rewrite (run_bind _ _ _ _ _ Hrun). exact Hrun2. }
  intros acc st H0. apply Hgen; [lia | exact H0].
Qed.

(** X26.  The five cycles of the main block are independent given the
    random source: the cycle number [c] (from 0) returns the record of one
    cycle run on the source after [c * draws_used] draws, the list holds the
    five records in order, and the loop consumes [5 * draws_used] draws. *)
Theorem main_cycles_records st :
  ∃ cycles st',
    main_cycles st = Ok (cycles, st') ∧
    cycles =
      (λ c, cycle_result 20 50 1e-8 1.0 4 3 50 0.01 (0.2 * PI) 1e-8
              (skip (c * draws_used 20 50 4 50) (rng st))) <$> seq 0 5 ∧
    (∀ m, rng st' m = rng st (5 * draws_used 20 50 4 50 + m)%nat).
Proof.
  unfold main_cycles.
  apply (for_acc_seq_inv
    (λ c acc st',
       acc = (λ c, cycle_result 20 50 1e-8 1.0 4 3 50 0.01 (0.2 * PI) 1e-8
                     (skip (c * draws_used 20 50 4 50) (rng st))) <$> seq 0 c ∧
       (∀ m, rng st' m = rng st (c * draws_used 20 50 4 50 + m)%nat))).
  - intros c acc st1 _ [Hacc Hrng]. unfold run_one_cycle.
    destruct (run_cycle_state 20 50 1e-8 1.0 4 3 50 0.01 (0.2 * PI) 1e-8 st1)
      as (st2 & Hrun & _ & Hrng2); [lia | lia |].
    rewrite (run_bind _ _ _ _ _ Hrun).
    eexists _, st2. split; [reflexivity|]. split.
    + rewrite seq_S, fmap_app, Hacc. cbn [fmap list_fmap]. f_equal. f_equal.
      apply cycle_result_agree. intros i _. unfold skip. apply Hrng.
    + intros m. rewrite Hrng2, Hrng. f_equal. lia.
  - split; [reflexivity|]. intros m. reflexivity.
Qed.

